(** * get-proxies-list: the merge engine, the quality scorer, the spot checker,
      the cache and the refresh cycle, embedded from the Python sources.

    Conventions of the embedding.
    - Python [int] is [Z]; Python [float] is idealised as an exact rational
      [Q] (no rounding error, no NaN, no infinities); [round(x, 3)] is
      round-half-to-even on the exact value.
    - [str | None] is [option string]; "truthiness" of such a value is written
      out ([truthy]).
    - The insertion-ordered [dict] used for grouping is an association list
      (iteration order matters for the final stable sort); the source-status
      [dict] is a [gmap string string] (only lookups matter).
    - Exceptions are values of [exn] carried by the [result] monad.
    - [time.time()], the random generator behind [random.sample], the network
      probes and the three upstream adapters are inputs of the model. *)

From Stdlib Require Import QArith Qround Qminmax ZArith List Lia Lqa Permutation Sorted.
From stdpp Require Import gmap strings.

Import ListNotations.
Local Open Scope Q_scope.

(** ** Exceptions and the error monad *)

Inductive exn : Type :=
  | IndexError
  | ValueError
  | ZeroDivisionError
  | OtherError (name : string).

(** [type(exc).__name__] *)
Definition exn_name (e : exn) : string :=
  match e with
  | IndexError => "IndexError"
  | ValueError => "ValueError"
  | ZeroDivisionError => "ZeroDivisionError"
  | OtherError name => name
  end.

Inductive result (A : Type) : Type :=
  | Ok (a : A)
  | Raise (e : exn).
Arguments Ok {A} a.
Arguments Raise {A} e.

Definition bind {A B : Type} (r : result A) (k : A -> result B) : result B :=
  match r with
  | Ok a => k a
  | Raise e => Raise e
  end.

Notation "x <- r ;; k" := (bind r (fun x => k))
  (at level 100, r at next level, right associativity).

Fixpoint mapM {A B : Type} (f : A -> result B) (l : list A) : result (list B) :=
  match l with
  | [] => Ok []
  | a :: l' => b <- f a ;; bs <- mapM f l' ;; Ok (b :: bs)
  end.

(** ** Float comparisons and rounding on the idealised carrier *)

Definition Qltb (x y : Q) : bool := negb (Qle_bool y x).

(** Nearest integer, ties to the even one. *)
Definition round_half_even (x : Q) : Z :=
  let f := Qfloor x in
  match Qcompare (x - inject_Z f) (1 # 2) with
  | Lt => f
  | Gt => (f + 1)%Z
  | Eq => if Z.even f then f else (f + 1)%Z
  end.

(** [round(x, 3)] *)
Definition round3 (x : Q) : Q := Qmake (round_half_even (x * 1000)) 1000.

(** [round(x, 1)] *)
Definition round1 (x : Q) : Q := Qmake (round_half_even (x * 10)) 10.

(** ** app/models.py *)

Module Models.

Record Proxy : Type := mkProxy {
  ip : string;
  port : Z;
  protocol : string;
  anonymity : option string;
  country : option string;
  city : option string;
  proxy_url : string;
  speed_ms : option Q;
  reliability : option Q;
  source_count : Z;
  quality_score : Q;
  verified_targets : option (list string)
}.

(** [proxy.quality_score = q] *)
Definition set_quality_score (p : Proxy) (q : Q) : Proxy :=
  {| ip := ip p; port := port p; protocol := protocol p;
     anonymity := anonymity p; country := country p; city := city p;
     proxy_url := proxy_url p; speed_ms := speed_ms p;
     reliability := reliability p; source_count := source_count p;
     quality_score := q; verified_targets := verified_targets p |}.

(** The body of the [/health] answer. *)
Record HealthResponse : Type := mkHealthResponse {
  status : string;
  cache_size : nat;
  cache_age_seconds : Q;
  sources : gmap string string;
  health_spot_check_success_rate : option Q;
  avg_quality_score : option Q
}.

End Models.
Import Models.

(** [x or ""] for [x : str | None] *)
Definition or_empty (s : option string) : string :=
  match s with
  | Some s => if String.eqb s "" then ""%string else s
  | None => ""%string
  end.

(** Truth value of [x : str | None]: neither [None] nor the empty string. *)
Definition truthy (s : option string) : bool :=
  match s with
  | Some s => negb (String.eqb s "")
  | None => false
  end.

(** Truth value of a [str]: not the empty string. *)
Definition str_truthy (s : string) : bool := negb (String.eqb s "").

(** ** app/config.py *)

Module Config.

Definition CLEARPROXY_HTTP_URL : string :=
  "https://raw.githubusercontent.com/ClearProxy/checked-proxy-list/main/http/json/all.json".
Definition CLEARPROXY_SOCKS4_URL : string :=
  "https://raw.githubusercontent.com/ClearProxy/checked-proxy-list/main/socks4/json/all.json".
Definition CLEARPROXY_SOCKS5_URL : string :=
  "https://raw.githubusercontent.com/ClearProxy/checked-proxy-list/main/socks5/json/all.json".

Definition ANONYMITY_MAP : gmap string string :=
  <["elite proxy"%string := "elite"%string]>
    (<["high anonymous"%string := "elite"%string]>
       (<["high_anonymous"%string := "elite"%string]>
          (<["elite"%string := "elite"%string]>
             (<["anonymous"%string := "anonymous"%string]>
                (<["transparent"%string := "transparent"%string]> ∅))))).

Definition VAKHOV_ANON_MAP : gmap Z string :=
  <[4%Z := "elite"%string]>
    (<[3%Z := "anonymous"%string]>
       (<[2%Z := "anonymous"%string]>
          (<[1%Z := "transparent"%string]> ∅))).

End Config.
Import Config.

(** ** app/verification.py *)

Module Verification.

(** [{"elite": 0.1, "anonymous": 0.06, "transparent": 0.02}.get(k, 0.0)] *)
Definition anon_scores_get (k : string) (default : Q) : Q :=
  if String.eqb k "elite" then 0.1
  else if String.eqb k "anonymous" then 0.06
  else if String.eqb k "transparent" then 0.02
  else default.

Definition compute_quality_score (proxy : Proxy) : Q :=
  let score := 0 in
  let score := score + Qmin (inject_Z (source_count proxy) * 0.1) 0.3 in
  let score :=
    match reliability proxy with
    | Some r => score + r * 0.3
    | None => score
    end in
  let score :=
    match speed_ms proxy with
    | Some s => if Qltb 0 s then score + Qmax 0 (0.2 - s / 25000) else score
    | None => score
    end in
  let score := score + anon_scores_get (or_empty (anonymity proxy)) 0 in
  let score :=
    match verified_targets proxy with
    | Some ((_ :: _) as vt) =>
        score + Qmin (inject_Z (Z.of_nat (length vt)) * 0.02) 0.1
    | _ => score
    end in
  round3 (Qmin score 1).

(** What one entry of the list returned by
    [asyncio.gather(..., return_exceptions=True)] can be: the boolean
    returned by [_test_single_proxy], or an exception object. *)
Inductive probe_result : Type :=
  | PTrue
  | PFalse
  | PException (e : exn).

(** [r is True] *)
Definition is_True (r : probe_result) : bool :=
  match r with
  | PTrue => true
  | _ => false
  end.

(** Removes and returns the element at position [i]. *)
Fixpoint take_out {A : Type} (i : nat) (l : list A) : option (A * list A) :=
  match l with
  | [] => None
  | x :: l' =>
      match i with
      | O => Some (x, l')
      | S i' =>
          match take_out i' l' with
          | Some (y, rest) => Some (y, x :: rest)
          | None => None
          end
      end
  end.

(** Selection without replacement: at each step the generator picks one
    position of the remaining pool. *)
Fixpoint draw {A : Type} (rng : nat -> nat) (step : nat) (k : nat)
    (pool : list A) : list A :=
  match k with
  | O => []
  | S k' =>
      match take_out (rng step mod length pool) pool with
      | Some (x, rest) => x :: draw rng (S step) k' rest
      | None => []
      end
  end.

(** [random.sample(population, k)]: raises [ValueError] when [k] is negative
    or larger than the population. *)
Definition random_sample {A : Type} (rng : nat -> nat) (population : list A)
    (k : Z) : result (list A) :=
  if (k <? 0)%Z || (Z.of_nat (length population) <? k)%Z
  then Raise ValueError
  else Ok (draw rng 0 (Z.to_nat k) population).

(** [a / b] on two Python ints *)
Definition true_div (a b : Z) : result Q :=
  if (b =? 0)%Z then Raise ZeroDivisionError
  else Ok (inject_Z a / inject_Z b).

Section SpotCheck.
(** The random generator and the outcome of probing one proxy. *)
Variable rng : nat -> nat.
Variable _test_single_proxy : Proxy -> probe_result.

Definition spot_check_proxies (proxies : list Proxy) (sample_size : Z)
    : result Q :=
  match proxies with
  | [] => Ok 0.0
  | _ :: _ =>
      sample <- random_sample rng proxies
                  (Z.min sample_size (Z.of_nat (length proxies))) ;;
      let results := map _test_single_proxy sample in
      let successes := length (List.filter is_True results) in
      true_div (Z.of_nat successes) (Z.of_nat (length sample))
  end.
End SpotCheck.

End Verification.
Import Verification.

(** ** app/sources.py *)

Module Sources.

Section Normalize.
(** [str.lower] and [str.strip]. *)
Variables str_lower str_strip : string -> string.

Definition _normalize_anonymity (raw : option string) : option string :=
  match raw with
  | None => None
  | Some raw => ANONYMITY_MAP !! str_strip (str_lower raw)
  end.
End Normalize.

(** [{"elite": 3, "anonymous": 2, "transparent": 1}.get(anonymity or "", 0)] *)
Definition _anon_rank (anonymity : option string) : Z :=
  let k := or_empty anonymity in
  if String.eqb k "elite" then 3
  else if String.eqb k "anonymous" then 2
  else if String.eqb k "transparent" then 1
  else 0.

(** The dictionary key [(p.ip, p.port)]. *)
Definition endpoint : Type := (string * Z)%type.

Definition endpoint_of (p : Proxy) : endpoint := (ip p, port p).

Definition endpoint_eqb (a b : endpoint) : bool :=
  String.eqb (fst a) (fst b) && (snd a =? snd b)%Z.

(** [groups[k].append(p)] on an insertion-ordered [defaultdict(list)]: an
    existing key keeps its position, a new key goes last. *)
Fixpoint groups_append (k : endpoint) (p : Proxy)
    (groups : list (endpoint * list Proxy)) : list (endpoint * list Proxy) :=
  match groups with
  | [] => [(k, [p])]
  | (k', g) :: rest =>
      if endpoint_eqb k' k then (k', g ++ [p]) :: rest
      else (k', g) :: groups_append k p rest
  end.

(** The first loop of [_merge_and_deduplicate]. *)
Definition build_groups (all_proxies : list Proxy)
    : list (endpoint * list Proxy) :=
  fold_left (fun groups p => groups_append (endpoint_of p) p groups)
            all_proxies [].

(** The three running values of the inner loop. *)
Record best : Type := mkBest {
  best_speed : option Q;
  best_reliability : option Q;
  best_anonymity : option string
}.

(** One iteration of [for p in group]. *)
Definition merge_step (b : best) (p : Proxy) : best :=
  let best_speed' :=
    match speed_ms p with
    | Some s =>
        match best_speed b with
        | None => Some s
        | Some bs => if Qltb s bs then Some s else Some bs
        end
    | None => best_speed b
    end in
  let best_reliability' :=
    match reliability p with
    | Some r =>
        match best_reliability b with
        | None => Some r
        | Some br => if Qltb br r then Some r else Some br
        end
    | None => best_reliability b
    end in
  let best_anonymity' :=
    if truthy (anonymity p) &&
       (match best_anonymity b with
        | None => true
        | Some _ => (_anon_rank (best_anonymity b) <? _anon_rank (anonymity p))%Z
        end)
    then anonymity p
    else best_anonymity b in
  mkBest best_speed' best_reliability' best_anonymity'.

(** The body of the outer loop once [base = group[0]] is known: the record
    built by [Proxy(...)] with the model's defaults, then scored. *)
Definition merge_with_base (base : Proxy) (group : list Proxy) : Proxy :=
  let source_count := Z.of_nat (length group) in
  let b := fold_left merge_step group (mkBest None None (anonymity base)) in
  let proxy :=
    {| ip := ip base; port := port base; protocol := protocol base;
       anonymity := best_anonymity b; country := country base; city := None;
       proxy_url := proxy_url base; speed_ms := best_speed b;
       reliability := best_reliability b; source_count := source_count;
       quality_score := 0.0; verified_targets := None |} in
  set_quality_score proxy (compute_quality_score proxy).

(** The body of the outer loop; [group[0]] raises on an empty list. *)
Definition merge_group (group : list Proxy) : result Proxy :=
  match group with
  | [] => Raise IndexError
  | base :: _ => Ok (merge_with_base base group)
  end.

(** [l.sort(key=key, reverse=True)]: descending by key, elements with equal
    keys keep their original relative order. *)
Fixpoint insert_desc {A : Type} (key : A -> Q) (x : A) (l : list A) : list A :=
  match l with
  | [] => [x]
  | y :: l' =>
      if Qle_bool (key y) (key x) then x :: y :: l'
      else y :: insert_desc key x l'
  end.

Definition sort_reverse {A : Type} (key : A -> Q) (l : list A) : list A :=
  fold_right (insert_desc key) [] l.

Definition _merge_and_deduplicate (all_proxies : list Proxy)
    : result (list Proxy) :=
  let groups := build_groups all_proxies in
  merged <- mapM (fun kg => merge_group (snd kg)) groups ;;
  Ok (sort_reverse quality_score merged).

(** What awaiting one adapter coroutine yields: its records, or an exception
    (a subclass of [Exception]) whose class name is recorded. *)
Definition outcome : Type := result (list Proxy).

Section ClearProxy.
(** What awaiting [_fetch_clearproxy_single(client, url, protocol)] yields. *)
Variable _fetch_clearproxy_single : string -> string -> outcome.

(** One iteration of the loop of [_fetch_clearproxy]. *)
Definition clearproxy_step (results : list Proxy) (item : string * string)
    : list Proxy :=
  let '(url, protocol) := item in
  match _fetch_clearproxy_single url protocol with
  | Ok proxies => results ++ proxies
  | Raise _ => results
  end.

Definition _fetch_clearproxy : outcome :=
  Ok (fold_left clearproxy_step
        [(CLEARPROXY_HTTP_URL, "http"%string);
         (CLEARPROXY_SOCKS4_URL, "socks4"%string);
         (CLEARPROXY_SOCKS5_URL, "socks5"%string)] []).
End ClearProxy.

(** One iteration of [for name, coro in fetchers.items()]. *)
Definition fetch_step (st : list Proxy * gmap string string)
    (item : string * outcome) : list Proxy * gmap string string :=
  let '(all_proxies, source_status) := st in
  let '(name, coro) := item in
  match coro with
  | Ok proxies => (all_proxies ++ proxies, <[name := "ok"%string]> source_status)
  | Raise exc =>
      (all_proxies,
       <[name := ("error: " +:+ exn_name exc)%string]> source_status)
  end.

Section Fetch.
Variables _fetch_proxifly _fetch_vakhov _fetch_clearproxy : outcome.

Definition fetchers : list (string * outcome) :=
  [("proxifly"%string, _fetch_proxifly);
   ("vakhov"%string, _fetch_vakhov);
   ("clearproxy"%string, _fetch_clearproxy)].

Definition fetch_all_sources : result (list Proxy * gmap string string) :=
  let '(all_proxies, source_status) := fold_left fetch_step fetchers ([], ∅) in
  merged <- _merge_and_deduplicate all_proxies ;;
  Ok (merged, source_status).
End Fetch.

End Sources.
Import Sources.

(** ** app/cache.py *)

Module Cache.

Record ProxyCache : Type := mkProxyCache {
  proxies : list Proxy;
  cached_at : Q;
  source_status : gmap string string;
  spot_check_success_rate : option Q
}.

(** [ProxyCache()] *)
Definition new_cache : ProxyCache := mkProxyCache [] 0.0 ∅ None.

(** [self.update(proxies, source_status)], [now] being what [time.time()]
    returns. *)
Definition update (self : ProxyCache) (now : Q) (proxies' : list Proxy)
    (source_status' : gmap string string) : ProxyCache :=
  {| proxies := proxies';
     cached_at := now;
     source_status := source_status';
     spot_check_success_rate := spot_check_success_rate self |}.

Definition is_empty (self : ProxyCache) : bool :=
  (length (proxies self) =? 0)%nat.

(** [self.is_stale(ttl)], [now] being what [time.time()] returns. *)
Definition is_stale (self : ProxyCache) (now : Q) (ttl : Q) : bool :=
  Qeq_bool (cached_at self) 0.0 || Qltb ttl (now - cached_at self).

(** [self.age_seconds()] *)
Definition age_seconds (self : ProxyCache) (now : Q) : Q :=
  if Qeq_bool (cached_at self) 0.0 then 0.0
  else round1 (now - cached_at self).

(** [cache.source_status = s] *)
Definition set_source_status (self : ProxyCache) (s : gmap string string)
    : ProxyCache :=
  {| proxies := proxies self;
     cached_at := cached_at self;
     source_status := s;
     spot_check_success_rate := spot_check_success_rate self |}.

(** [cache.spot_check_success_rate = rate] *)
Definition set_spot_check_success_rate (self : ProxyCache) (rate : Q)
    : ProxyCache :=
  {| proxies := proxies self;
     cached_at := cached_at self;
     source_status := source_status self;
     spot_check_success_rate := Some rate |}.

End Cache.
Import Cache.

(** ** app/main.py *)

Module Main.

(** Everything one refresh cycle reads from outside the process. *)
Record world : Type := mkWorld {
  w_proxifly : outcome;
  w_vakhov : outcome;
  w_clearproxy : outcome;
  w_now : Q;
  w_rng : nat -> nat;
  w_probe : Proxy -> probe_result
}.

Section Refresh.
(** [app.config.SPOT_CHECK_SAMPLE_SIZE], read from the environment. *)
Variable SPOT_CHECK_SAMPLE_SIZE : Z.

(** The [try] block of [refresh_cache]; the cache is threaded through so
    that a write made before an exception survives it. *)
Definition refresh_cache (w : world) (cache : ProxyCache) : ProxyCache :=
  match fetch_all_sources (w_proxifly w) (w_vakhov w) (w_clearproxy w) with
  | Raise _ => cache
  | Ok (proxies, source_status) =>
      if negb (length proxies =? 0)%nat || is_empty cache then
        let cache := update cache (w_now w) proxies source_status in
        match spot_check_proxies (w_rng w) (w_probe w) proxies
                SPOT_CHECK_SAMPLE_SIZE with
        | Raise _ => cache
        | Ok rate => set_spot_check_success_rate cache rate
        end
      else set_source_status cache source_status
  end.
(** The first iterations of [_periodic_refresh], one world per cycle. *)
Definition _periodic_refresh (ws : list world) (cache : ProxyCache)
    : ProxyCache :=
  fold_left (fun cache w => refresh_cache w cache) ws cache.
End Refresh.

Section Filtering.
(** [str.lower] and [str.upper]. *)
Variables str_lower str_upper : string -> string.

Definition filter_proxies (proxies : list Proxy)
    (protocol' country' anonymity' : option string) (min_score : Q)
    (limit : Z) : list Proxy :=
  let result := proxies in
  let result :=
    match protocol' with
    | Some s =>
        if str_truthy s then
          let p := str_lower s in
          List.filter (fun px => String.eqb (protocol px) p) result
        else result
    | None => result
    end in
  let result :=
    match country' with
    | Some s =>
        if str_truthy s then
          let c := str_upper s in
          List.filter
            (fun px =>
               match country px with
               | Some pc => str_truthy pc && String.eqb (str_upper pc) c
               | None => false
               end) result
        else result
    | None => result
    end in
  let result :=
    match anonymity' with
    | Some s =>
        if str_truthy s then
          let a := str_lower s in
          List.filter
            (fun px =>
               match anonymity px with
               | Some pa => str_truthy pa && String.eqb (str_lower pa) a
               | None => false
               end) result
        else result
    | None => result
    end in
  let result :=
    if Qltb 0 min_score
    then List.filter (fun px => Qle_bool min_score (quality_score px)) result
    else result in
  let result :=
    if negb (limit =? 0)%Z && (0 <? limit)%Z
    then firstn (Z.to_nat limit) result
    else result in
  result.
End Filtering.

(** [sum(p.quality_score for p in proxies)] *)
Definition sum_scores (proxies : list Proxy) : Q :=
  fold_left (fun acc p => acc + quality_score p) proxies 0.

(** The [/health] route, [now] being what [time.time()] returns. *)
Definition health (now : Q) (cache : ProxyCache) : HealthResponse :=
  let avg_score :=
    match proxies cache with
    | [] => None
    | _ :: _ =>
        Some (round3 (sum_scores (proxies cache)
                      / inject_Z (Z.of_nat (length (proxies cache)))))
    end in
  let status :=
    if is_empty cache then "unhealthy"%string
    else
      match spot_check_success_rate cache with
      | Some rate => if Qltb rate 0.5 then "degraded"%string else "healthy"%string
      | None => "healthy"%string
      end in
  {| status := status;
     cache_size := length (proxies cache);
     cache_age_seconds := age_seconds cache now;
     sources := source_status cache;
     health_spot_check_success_rate := spot_check_success_rate cache;
     avg_quality_score := avg_score |}.

End Main.
Import Main.

(** * Specification-side definitions *)

(** ** The scoring formula as the specification words it *)

Definition corroboration_term (p : Proxy) : Q :=
  Qmin (inject_Z (source_count p) * 0.1) 0.3.

Definition reliability_term (p : Proxy) : Q :=
  match reliability p with
  | Some r => r * 0.3
  | None => 0
  end.

Definition speed_term (p : Proxy) : Q :=
  match speed_ms p with
  | Some s => if Qltb 0 s then Qmax 0 (0.2 - s / 25000) else 0
  | None => 0
  end.

Definition anonymity_bonus (a : option string) : Q :=
  if decide (a = Some "elite"%string) then 0.1
  else if decide (a = Some "anonymous"%string) then 0.06
  else if decide (a = Some "transparent"%string) then 0.02
  else 0.

Definition verified_target_count (p : Proxy) : nat :=
  match verified_targets p with
  | Some vt => length vt
  | None => O
  end.

Definition verified_term (p : Proxy) : Q :=
  Qmin (inject_Z (Z.of_nat (verified_target_count p)) * 0.02) 0.1.

Definition score_sum (p : Proxy) : Q :=
  corroboration_term p + reliability_term p + speed_term p
  + anonymity_bonus (anonymity p) + verified_term p.

(** A canonical record used to instantiate the theorems. *)
Definition sample_proxy : Proxy :=
  {| ip := "1.1.1.1"; port := 80; protocol := "http";
     anonymity := Some "elite"%string; country := Some "US"%string;
     city := None; proxy_url := "http://1.1.1.1:80";
     speed_ms := Some 80; reliability := Some 0.9; source_count := 2;
     quality_score := 0.0; verified_targets := Some ["t1"; "t2"]%string |}.


(** ** Groups, first occurrences and the reconciliation policy *)

(** The raw records that share the endpoint [k], in input order. *)
Definition group_of (k : endpoint) (all : list Proxy) : list Proxy :=
  List.filter (fun p => endpoint_eqb (endpoint_of p) k) all.


(** The distinct endpoints of the input, in order of first occurrence. *)
Definition first_keys (all : list Proxy) : list endpoint :=
  fold_left
    (fun ks p =>
       if existsb (endpoint_eqb (endpoint_of p)) ks then ks
       else ks ++ [endpoint_of p])
    all [].




(** The canonical anonymity vocabulary. *)
Definition valid_tag (a : option string) : Prop :=
  a = None \/ a = Some "transparent"%string \/ a = Some "anonymous"%string
  \/ a = Some "elite"%string.




(** The raw record [p] carrying the score [f p] instead of its own. *)
Definition rescore_with (f : Proxy -> Q) (p : Proxy) : Proxy :=
  set_quality_score p (f p).

(** Raw records as an adapter emits them ([source_count] and
    [quality_score] at their defaults). *)
Definition raw_record (i : string) (pt : Z) (pr : string) (url : string)
    (an : option string) (sp rl : option Q) : Proxy :=
  {| ip := i; port := pt; protocol := pr; anonymity := an; country := None;
     city := None; proxy_url := url; speed_ms := sp; reliability := rl;
     source_count := 1; quality_score := 0.0; verified_targets := None |}.

(** The specification's merge example: two observations of 1.1.1.1:80. *)
Definition raw_a1 : Proxy :=
  raw_record "1.1.1.1" 80 "http" "http://1.1.1.1:80"
    (Some "transparent"%string) (Some 120) (Some 0.6).
Definition raw_a2 : Proxy :=
  raw_record "1.1.1.1" 80 "https" "https://1.1.1.1:80"
    (Some "elite"%string) (Some 80) (Some 0.9).
Definition raw_b1 : Proxy :=
  raw_record "2.2.2.2" 8080 "socks5" "socks5://2.2.2.2:8080" None None None.
Definition raw_c1 : Proxy :=
  raw_record "3.3.3.3" 1080 "socks5" "socks5://3.3.3.3:1080" None None None.

(** [r] is what the outer loop builds for the group of endpoint [k]. *)
Definition merged_from (all : list Proxy) (k : endpoint) (r : Proxy) : Prop :=
  exists base rest,
    group_of k all = base :: rest /\ r = merge_with_base base (base :: rest).

(** ** The fetch orchestrator *)

(** The records an adapter contributes: its list when it succeeded. *)
Definition records_of (o : outcome) : list Proxy :=
  match o with
  | Ok proxies => proxies
  | Raise _ => []
  end.

(** The status string of an adapter outcome. *)
Definition status_of (o : outcome) : string :=
  match o with
  | Ok _ => "ok"
  | Raise exc => "error: " +:+ exn_name exc
  end.

Definition succeeded (o : outcome) : Prop := exists proxies, o = Ok proxies.

(** ** Sample inputs of a refresh cycle *)

(** A total outage: one feed answers with no record, two fail. *)
Definition outage_world : world :=
  {| w_proxifly := Ok [];
     w_vakhov := Raise (OtherError "ConnectTimeout");
     w_clearproxy := Raise (OtherError "HTTPStatusError");
     w_now := 1700000600;
     w_rng := fun i => i;
     w_probe := fun _ => PFalse |}.

(** A cache filled by an earlier cycle. *)
Definition filled_cache : ProxyCache :=
  {| proxies := [raw_a1; raw_b1];
     cached_at := 1700000000;
     source_status :=
       <["proxifly"%string := "ok"%string]> (∅ : gmap string string);
     spot_check_success_rate := Some 0.5 |}.

(** ** Filtering *)

(** One optional filter stage of [filter_proxies]: skipped when the query
    parameter is absent or empty. *)
Definition opt_stage (o : option string) (F : string -> Proxy -> bool)
    (l : list Proxy) : list Proxy :=
  match o with
  | Some s => if str_truthy s then List.filter (F s) l else l
  | None => l
  end.


(** ASCII case mapping, enough to run the filters on sample data. *)
Definition ascii_lower (c : Ascii.ascii) : Ascii.ascii :=
  let n := Ascii.nat_of_ascii c in
  if (65 <=? n)%nat && (n <=? 90)%nat then Ascii.ascii_of_nat (n + 32) else c.

Definition ascii_upper (c : Ascii.ascii) : Ascii.ascii :=
  let n := Ascii.nat_of_ascii c in
  if (97 <=? n)%nat && (n <=? 122)%nat then Ascii.ascii_of_nat (n - 32) else c.

Fixpoint string_map (f : Ascii.ascii -> Ascii.ascii) (s : string) : string :=
  match s with
  | EmptyString => EmptyString
  | String c s' => String (f c) (string_map f s')
  end.

Definition lower_ascii : string -> string := string_map ascii_lower.
Definition upper_ascii : string -> string := string_map ascii_upper.

(** ** Cache contents *)


(** A scored, sorted record list as a cache holds it. *)
Definition sample_cached : list Proxy :=
  [set_quality_score raw_a2 0.767;
   set_quality_score raw_a1 0.495;
   set_quality_score raw_b1 0.1;
   set_quality_score raw_c1 0.1].

(** A cycle in which two feeds report 1.1.1.1:80 and the third fails. *)
Definition busy_world : world :=
  {| w_proxifly := Ok [raw_a1; raw_b1];
     w_vakhov := Ok [raw_a2];
     w_clearproxy := Raise (OtherError "ConnectError");
     w_now := 1700001200;
     w_rng := fun i => i;
     w_probe := fun p => if (port p =? 80)%Z then PTrue else PFalse |}.

(** ** Totals and field updates *)

(** The sum of the source counts of a record list. *)
Definition total_sources (l : list Proxy) : Z :=
  fold_right Z.add 0%Z (map source_count l).

(** [p] with one field replaced. *)
Definition with_source_count (p : Proxy) (n : Z) : Proxy :=
  {| ip := ip p; port := port p; protocol := protocol p;
     anonymity := anonymity p; country := country p; city := city p;
     proxy_url := proxy_url p; speed_ms := speed_ms p;
     reliability := reliability p; source_count := n;
     quality_score := quality_score p;
     verified_targets := verified_targets p |}.

Definition with_reliability (p : Proxy) (r : option Q) : Proxy :=
  {| ip := ip p; port := port p; protocol := protocol p;
     anonymity := anonymity p; country := country p; city := city p;
     proxy_url := proxy_url p; speed_ms := speed_ms p;
     reliability := r; source_count := source_count p;
     quality_score := quality_score p;
     verified_targets := verified_targets p |}.

Definition with_speed_ms (p : Proxy) (s : option Q) : Proxy :=
  {| ip := ip p; port := port p; protocol := protocol p;
     anonymity := anonymity p; country := country p; city := city p;
     proxy_url := proxy_url p; speed_ms := s;
     reliability := reliability p; source_count := source_count p;
     quality_score := quality_score p;
     verified_targets := verified_targets p |}.


(** * Proofs *)

(** ** Rounding *)

Lemma round_half_even_comp (x y : Q) :
  x == y -> round_half_even x = round_half_even y.
Proof.
  intros E. unfold round_half_even.
  rewrite (Qfloor_comp _ _ E).
  assert (E' : x - inject_Z (Qfloor y) == y - inject_Z (Qfloor y))
    by (rewrite E; reflexivity).
  rewrite (Qcompare_comp _ _ E' (1 # 2) (1 # 2) (Qeq_refl _)).
  reflexivity.
Qed.

Lemma round3_comp (x y : Q) : x == y -> round3 x = round3 y.
Proof.
  intros E. unfold round3. f_equal. apply round_half_even_comp.
  rewrite E. reflexivity.
Qed.



(** ** The quality scorer *)

Lemma or_empty_Some (s : string) : or_empty (Some s) = s.
Proof.
  unfold or_empty. destruct (String.eqb_spec s ""); congruence.
Qed.

Lemma anon_scores_get_bonus (a : option string) :
  anon_scores_get (or_empty a) 0 = anonymity_bonus a.
Proof.
  destruct a as [s | ].
  - rewrite or_empty_Some. unfold anon_scores_get, anonymity_bonus.
    destruct (String.eqb_spec s "elite") as [-> | ?]; [reflexivity | ].
    rewrite decide_False by congruence.
    destruct (String.eqb_spec s "anonymous") as [-> | ?]; [reflexivity | ].
    rewrite decide_False by congruence.
    destruct (String.eqb_spec s "transparent") as [-> | ?]; [reflexivity | ].
    rewrite decide_False by congruence. reflexivity.
  - reflexivity.
Qed.


(** The accumulated score before clamping and rounding is the sum of the
    five contributions. *)
Lemma compute_quality_score_sum (p : Proxy) :
  compute_quality_score p = round3 (Qmin (score_sum p) 1).
Proof.
  unfold compute_quality_score. apply round3_comp.
  apply Q.min_compat; [ | reflexivity].
  rewrite anon_scores_get_bonus.
  unfold score_sum, corroboration_term, reliability_term, speed_term,
    verified_term, verified_target_count.
  destruct (reliability p) as [r | ];
    (destruct (speed_ms p) as [s | ]; [destruct (Qltb 0 s) | ]);
    destruct (verified_targets p) as [[ | t vt] | ];
    cbn [length]; try ring;
    change (Qmin (inject_Z (Z.of_nat 0) * 0.02) 0.1) with (0 * 0.02);
    ring.
Qed.




(** ** Grouping by endpoint *)

Lemma endpoint_eqb_eq (a b : endpoint) : endpoint_eqb a b = true <-> a = b.
Proof.
  destruct a as [i n], b as [j m]. unfold endpoint_eqb; simpl.
  rewrite andb_true_iff, String.eqb_eq, Z.eqb_eq.
  split; [intros [-> ->]; reflexivity | intros E; injection E; auto].
Qed.

Lemma endpoint_eqb_refl (a : endpoint) : endpoint_eqb a a = true.
Proof. apply endpoint_eqb_eq. reflexivity. Qed.

Lemma endpoint_eqb_neq (a b : endpoint) : endpoint_eqb a b = false <-> a <> b.
Proof.
  rewrite <- endpoint_eqb_eq. destruct (endpoint_eqb a b); split; congruence.
Qed.

Lemma endpoint_eqb_sym (a b : endpoint) : endpoint_eqb a b = endpoint_eqb b a.
Proof.
  destruct (endpoint_eqb b a) eqn:E.
  - apply endpoint_eqb_eq. symmetry. apply endpoint_eqb_eq, E.
  - apply endpoint_eqb_neq. intros ->. rewrite endpoint_eqb_refl in E. discriminate.
Qed.

Lemma group_of_app (k : endpoint) (l l' : list Proxy) :
  group_of k (l ++ l') = group_of k l ++ group_of k l'.
Proof. apply List.filter_app. Qed.

Lemma group_of_In (k : endpoint) (all : list Proxy) (p : Proxy) :
  In p (group_of k all) <-> In p all /\ endpoint_of p = k.
Proof.
  unfold group_of. rewrite List.filter_In, endpoint_eqb_eq. reflexivity.
Qed.

Lemma group_of_absent (k : endpoint) (all : list Proxy) :
  ~ In k (map endpoint_of all) -> group_of k all = [].
Proof.
  intros H. destruct (group_of k all) as [ | p g] eqn:E; [reflexivity | ].
  exfalso. apply H.
  assert (Hp : In p (group_of k all)) by (rewrite E; left; reflexivity).
  apply group_of_In in Hp as [Hp <-]. apply in_map, Hp.
Qed.

Lemma group_of_present (k : endpoint) (all : list Proxy) :
  In k (map endpoint_of all) -> group_of k all <> [].
Proof.
  intros H E. apply in_map_iff in H as (p & <- & Hp).
  assert (Hin : In p (group_of (endpoint_of p) all))
    by (apply group_of_In; auto).
  rewrite E in Hin. destruct Hin.
Qed.

Lemma existsb_endpoint (k : endpoint) (ks : list endpoint) :
  existsb (endpoint_eqb k) ks = true <-> In k ks.
Proof.
  rewrite existsb_exists. split.
  - intros (x & Hx & E). apply endpoint_eqb_eq in E. subst. exact Hx.
  - intros H. exists k. split; [exact H | apply endpoint_eqb_refl].
Qed.

Lemma first_keys_snoc (l : list Proxy) (p : Proxy) :
  first_keys (l ++ [p]) =
  if existsb (endpoint_eqb (endpoint_of p)) (first_keys l) then first_keys l
  else first_keys l ++ [endpoint_of p].
Proof. unfold first_keys. rewrite fold_left_app. reflexivity. Qed.

Lemma first_keys_In (k : endpoint) (all : list Proxy) :
  In k (first_keys all) <-> In k (map endpoint_of all).
Proof.
  induction all as [ | p l IH] using rev_ind; [reflexivity | ].
  rewrite first_keys_snoc, map_app, in_app_iff. simpl.
  destruct (existsb _ _) eqn:E.
  - apply existsb_endpoint in E. rewrite IH in *.
    intuition (subst; auto).
  - rewrite in_app_iff, IH. simpl. tauto.
Qed.

Lemma first_keys_NoDup (all : list Proxy) : List.NoDup (first_keys all).
Proof.
  induction all as [ | p l IH] using rev_ind; [constructor | ].
  rewrite first_keys_snoc.
  destruct (existsb _ _) eqn:E; [exact IH | ].
  apply List.NoDup_app.
  - exact IH.
  - constructor; [intros [] | constructor].
  - intros k Hk [<- | []].
    apply existsb_endpoint in Hk. congruence.
Qed.

(** Appending at a key that is already present extends that one group. *)
Lemma groups_append_present (k : endpoint) (p : Proxy) (G : endpoint -> list Proxy)
    (ks : list endpoint) :
  In k ks -> List.NoDup ks ->
  groups_append k p (map (fun k' => (k', G k')) ks) =
  map (fun k' => (k', if endpoint_eqb k' k then G k' ++ [p] else G k')) ks.
Proof.
  induction ks as [ | k0 ks IH]; simpl; [intros [] | ].
  intros Hin Hnd. apply List.NoDup_cons_iff in Hnd as [Hk0 Hnd].
  destruct (endpoint_eqb k0 k) eqn:E.
  - apply endpoint_eqb_eq in E. subst k0. f_equal.
    apply map_ext_in. intros k' Hk'.
    destruct (endpoint_eqb k' k) eqn:E'; [ | reflexivity].
    apply endpoint_eqb_eq in E'. congruence.
  - f_equal. apply IH; [ | exact Hnd].
    destruct Hin as [-> | Hin]; [ | exact Hin].
    rewrite endpoint_eqb_refl in E. discriminate.
Qed.

(** Appending at a new key adds a singleton group at the end. *)
Lemma groups_append_absent (k : endpoint) (p : Proxy) (G : endpoint -> list Proxy)
    (ks : list endpoint) :
  ~ In k ks ->
  groups_append k p (map (fun k' => (k', G k')) ks) =
  map (fun k' => (k', G k')) ks ++ [(k, [p])].
Proof.
  induction ks as [ | k0 ks IH]; simpl; [reflexivity | ].
  intros Hnot.
  destruct (endpoint_eqb k0 k) eqn:E.
  - apply endpoint_eqb_eq in E. tauto.
  - f_equal. apply IH. tauto.
Qed.

Lemma build_groups_snoc (l : list Proxy) (p : Proxy) :
  build_groups (l ++ [p]) = groups_append (endpoint_of p) p (build_groups l).
Proof. unfold build_groups. rewrite fold_left_app. reflexivity. Qed.

(** The dictionary built by the first loop: one entry per distinct endpoint,
    in order of first occurrence, holding the records of that endpoint in
    input order. *)
Lemma build_groups_char (all : list Proxy) :
  build_groups all = map (fun k => (k, group_of k all)) (first_keys all).
Proof.
  induction all as [ | p l IH] using rev_ind; [reflexivity | ].
  rewrite build_groups_snoc, IH, first_keys_snoc.
  destruct (existsb _ _) eqn:E.
  - apply existsb_endpoint in E.
    rewrite groups_append_present by (auto using first_keys_NoDup).
    apply map_ext. intros k. rewrite group_of_app. simpl.
    rewrite endpoint_eqb_sym.
    destruct (endpoint_eqb _ _); [reflexivity | ].
    rewrite app_nil_r. reflexivity.
  - assert (Hnot : ~ In (endpoint_of p) (first_keys l)).
    { intros H. apply existsb_endpoint in H. congruence. }
    rewrite groups_append_absent by exact Hnot.
    rewrite map_app. simpl. f_equal.
    + apply map_ext_in. intros k Hk. rewrite group_of_app. simpl.
      destruct (endpoint_eqb (endpoint_of p) k) eqn:E'.
      * apply endpoint_eqb_eq in E'. congruence.
      * rewrite app_nil_r. reflexivity.
    + rewrite group_of_app. simpl. rewrite endpoint_eqb_refl.
      rewrite group_of_absent; [reflexivity | ].
      rewrite <- first_keys_In. exact Hnot.
Qed.

(** ** First occurrences *)










(** ** The stable descending sort *)

Section SortReverse.
Context {A : Type} (key : A -> Q).

Lemma insert_desc_perm (x : A) (l : list A) :
  Permutation (insert_desc key x l) (x :: l).
Proof.
  induction l as [ | y l IH]; simpl; [reflexivity | ].
  destruct (Qle_bool (key y) (key x)); [reflexivity | ].
  rewrite IH. apply perm_swap.
Qed.

Lemma sort_reverse_perm (l : list A) : Permutation (sort_reverse key l) l.
Proof.
  induction l as [ | x l IH]; simpl; [reflexivity | ].
  rewrite insert_desc_perm. constructor. exact IH.
Qed.




End SortReverse.




(** ** The inner loop: reconciliation of one group *)

Lemma Qltb_lt (x y : Q) : Qltb x y = true <-> x < y.
Proof.
  unfold Qltb. rewrite negb_true_iff. split.
  - intros E. destruct (Qlt_le_dec x y) as [H | H]; [exact H | ].
    apply Qle_bool_iff in H. congruence.
  - intros H. destruct (Qle_bool y x) eqn:E; [ | reflexivity].
    apply Qle_bool_iff in E. exfalso. apply (Qlt_not_le _ _ H E).
Qed.

Lemma Qltb_ge (x y : Q) : Qltb x y = false <-> y <= x.
Proof.
  unfold Qltb. rewrite negb_false_iff. apply Qle_bool_iff.
Qed.









(** ** The outer loop and the whole merge *)

Lemma merge_with_base_endpoint (base : Proxy) (g : list Proxy) :
  endpoint_of (merge_with_base base g) = endpoint_of base.
Proof. reflexivity. Qed.

Lemma merge_with_base_scored (base : Proxy) (g : list Proxy) :
  quality_score (merge_with_base base g) =
  compute_quality_score (merge_with_base base g).
Proof. reflexivity. Qed.

Lemma merged_from_endpoint (all : list Proxy) (k : endpoint) (r : Proxy) :
  merged_from all k r -> endpoint_of r = k.
Proof.
  intros (base & rest & Hg & ->). rewrite merge_with_base_endpoint.
  assert (Hin : In base (group_of k all)) by (rewrite Hg; left; reflexivity).
  apply group_of_In in Hin. tauto.
Qed.

Lemma mapM_merge_groups (all : list Proxy) (ks : list endpoint) :
  (forall k, In k ks -> In k (map endpoint_of all)) ->
  exists pre,
    mapM (fun kg => merge_group (snd kg))
         (map (fun k => (k, group_of k all)) ks) = Ok pre
    /\ Forall2 (merged_from all) ks pre.
Proof.
  induction ks as [ | k ks IH]; intros Hks.
  - exists []. split; [reflexivity | constructor].
  - destruct IH as (pre & Hpre & Hall).
    { intros k' Hk'. apply Hks. right. exact Hk'. }
    destruct (group_of k all) as [ | base rest] eqn:Eg.
    { exfalso. eapply group_of_present; [ | exact Eg]. apply Hks. left. reflexivity. }
    exists (merge_with_base base (base :: rest) :: pre). split.
    + cbn [map mapM snd]. rewrite Eg. cbn [merge_group bind].
      rewrite Hpre. reflexivity.
    + constructor; [ | exact Hall]. exists base, rest. auto.
Qed.

(** The merge returns, for the endpoints in order of first occurrence, the
    record built from each group, stably sorted by descending score. *)
Lemma merge_char (all : list Proxy) :
  exists pre,
    _merge_and_deduplicate all = Ok (sort_reverse quality_score pre)
    /\ Forall2 (merged_from all) (first_keys all) pre.
Proof.
  destruct (mapM_merge_groups all (first_keys all)) as (pre & Hpre & Hall).
  { intros k. apply first_keys_In. }
  exists pre. split; [ | exact Hall].
  unfold _merge_and_deduplicate. rewrite build_groups_char, Hpre. reflexivity.
Qed.

Lemma merged_keys (all : list Proxy) (ks : list endpoint) (pre : list Proxy) :
  Forall2 (merged_from all) ks pre -> map endpoint_of pre = ks.
Proof.
  induction 1 as [ | k r ks pre Hr _ IH]; simpl; [reflexivity | ].
  rewrite IH. f_equal. eapply merged_from_endpoint, Hr.
Qed.

Lemma merged_In (all : list Proxy) (ks : list endpoint) (pre : list Proxy)
    (r : Proxy) :
  Forall2 (merged_from all) ks pre -> In r pre ->
  merged_from all (endpoint_of r) r.
Proof.
  induction 1 as [ | k r' ks pre Hr _ IH]; simpl; [intros [] | ].
  intros [<- | Hin]; [ | apply IH, Hin].
  rewrite (merged_from_endpoint _ _ _ Hr). exact Hr.
Qed.

(** Every returned record is the merge of the group of its own endpoint. *)
Lemma merge_In (all out : list Proxy) (r : Proxy) :
  _merge_and_deduplicate all = Ok out -> In r out ->
  merged_from all (endpoint_of r) r.
Proof.
  intros Hm Hin. destruct (merge_char all) as (pre & Hpre & Hall).
  rewrite Hpre in Hm. injection Hm as <-.
  eapply merged_In; [exact Hall | ].
  eapply Permutation_in; [apply sort_reverse_perm | exact Hin].
Qed.

(** The endpoints of the returned records are the distinct endpoints of the
    input. *)
Lemma merge_keys (all out : list Proxy) :
  _merge_and_deduplicate all = Ok out ->
  Permutation (map endpoint_of out) (first_keys all).
Proof.
  intros Hm. destruct (merge_char all) as (pre & Hpre & Hall).
  rewrite Hpre in Hm. injection Hm as <-.
  rewrite <- (merged_keys _ _ _ Hall).
  apply Permutation_map, sort_reverse_perm.
Qed.

Lemma merge_keys_NoDup (all out : list Proxy) :
  _merge_and_deduplicate all = Ok out -> List.NoDup (map endpoint_of out).
Proof.
  intros Hm. eapply Permutation_NoDup.
  - symmetry. apply merge_keys, Hm.
  - apply first_keys_NoDup.
Qed.

Lemma merge_keys_In (all out : list Proxy) (k : endpoint) :
  _merge_and_deduplicate all = Ok out ->
  In k (map endpoint_of out) <-> In k (map endpoint_of all).
Proof.
  intros Hm. rewrite <- (first_keys_In k all). split; apply Permutation_in.
  - apply merge_keys, Hm.
  - symmetry. apply merge_keys, Hm.
Qed.





(** ** Scores of raw records are never read *)

Section IgnoreScores.
Variable f : Proxy -> Q.

Lemma first_keys_rescore (all : list Proxy) :
  first_keys (map (rescore_with f) all) = first_keys all.
Proof.
  induction all as [ | p l IH] using rev_ind; [reflexivity | ].
  rewrite map_app. simpl map. rewrite !first_keys_snoc, IH. reflexivity.
Qed.

Lemma group_of_rescore (k : endpoint) (all : list Proxy) :
  group_of k (map (rescore_with f) all) = map (rescore_with f) (group_of k all).
Proof.
  induction all as [ | p l IH]; [reflexivity | ].
  unfold group_of in *. simpl.
  change (endpoint_of (rescore_with f p)) with (endpoint_of p).
  destruct (endpoint_eqb (endpoint_of p) k); simpl; rewrite IH; reflexivity.
Qed.

Lemma fold_merge_step_rescore (g : list Proxy) (b : best) :
  fold_left merge_step (map (rescore_with f) g) b = fold_left merge_step g b.
Proof.
  revert b. induction g as [ | p g IH]; intros b; [reflexivity | ].
  simpl. rewrite IH. reflexivity.
Qed.

Lemma merge_group_rescore (g : list Proxy) :
  merge_group (map (rescore_with f) g) = merge_group g.
Proof.
  destruct g as [ | base rest]; [reflexivity | ].
  simpl map. unfold merge_group, merge_with_base.
  rewrite <- (map_cons (rescore_with f)), fold_merge_step_rescore, length_map.
  reflexivity.
Qed.

Lemma merge_rescore (all : list Proxy) :
  _merge_and_deduplicate (map (rescore_with f) all) = _merge_and_deduplicate all.
Proof.
  unfold _merge_and_deduplicate.
  rewrite !build_groups_char, first_keys_rescore.
  f_equal. induction (first_keys all) as [ | k ks IH]; [reflexivity | ].
  cbn [map mapM snd].
  rewrite group_of_rescore, merge_group_rescore, IH. reflexivity.
Qed.
End IgnoreScores.

(** C4. The merged output holds exactly one record per distinct endpoint of
    the input, and every output record carries the score computed from its
    own merged fields; the scores of the raw records play no part. *)
Theorem merge_unique_and_scored (all : list Proxy) :
  exists out,
    _merge_and_deduplicate all = Ok out
    /\ List.NoDup (map endpoint_of out)
    /\ (forall k, In k (map endpoint_of out) <-> In k (map endpoint_of all))
    /\ Forall (fun r => quality_score r = compute_quality_score r) out
    /\ (forall f : Proxy -> Q,
          _merge_and_deduplicate (map (rescore_with f) all) = Ok out).
Proof.
  destruct (merge_char all) as (pre & Hout & Hall).
  exists (sort_reverse quality_score pre).
  split; [exact Hout | ].
  split; [eapply merge_keys_NoDup, Hout | ].
  split; [intros k; eapply merge_keys_In, Hout | ].
  split.
  - apply List.Forall_forall. intros r Hr.
    destruct (merge_In _ _ _ Hout Hr) as (base & rest & _ & E).
    rewrite E. apply merge_with_base_scored.
  - intros f. rewrite merge_rescore. exact Hout.
Qed.



(** ** Merging a duplicate-free list with itself *)

Lemma group_of_NoDup_single (k : endpoint) (M : list Proxy) (base : Proxy)
    (rest : list Proxy) :
  List.NoDup (map endpoint_of M) -> group_of k M = base :: rest -> rest = [].
Proof.
  induction M as [ | p M IH]; simpl; [discriminate | ].
  intros Hnd Hg. apply List.NoDup_cons_iff in Hnd as [Hp Hnd].
  unfold group_of in Hg. simpl in Hg.
  destruct (endpoint_eqb (endpoint_of p) k) eqn:E.
  - apply endpoint_eqb_eq in E. subst k.
    fold (group_of (endpoint_of p) M) in Hg.
    rewrite (group_of_absent _ _ Hp) in Hg. congruence.
  - apply IH; assumption.
Qed.

(** Seeing the same record a second time changes none of the running
    values. *)
Lemma merge_step_twice (base : Proxy) :
  fold_left merge_step [base; base] (mkBest None None (anonymity base)) =
  fold_left merge_step [base] (mkBest None None (anonymity base)).
Proof.
  assert (Hirr : forall x, Qltb x x = false).
  { intros x. apply Qltb_ge, Qle_refl. }
  cbn [fold_left]. unfold merge_step.
  cbn [best_speed best_reliability best_anonymity].
  destruct (speed_ms base) as [s | ], (reliability base) as [r | ],
    (anonymity base) as [a | ];
    rewrite ?Hirr, ?Z.ltb_irrefl, ?andb_false_r;
    cbn [best_speed best_reliability best_anonymity];
    rewrite ?Z.ltb_irrefl, ?andb_false_r;
    reflexivity.
Qed.

(** C9. Merging the concatenation of a duplicate-free list with itself
    doubles every source_count and leaves speed, reliability, anonymity,
    protocol, country and proxy_url as merging the list alone gives them. *)
Theorem merge_self_concat (M : list Proxy) :
  List.NoDup (map endpoint_of M) ->
  exists out1 out2,
    _merge_and_deduplicate M = Ok out1
    /\ _merge_and_deduplicate (M ++ M) = Ok out2
    /\ List.NoDup (map endpoint_of out1)
    /\ List.NoDup (map endpoint_of out2)
    /\ (forall k, In k (map endpoint_of out1) <-> In k (map endpoint_of M))
    /\ (forall k, In k (map endpoint_of out2) <-> In k (map endpoint_of M))
    /\ (forall r1 r2,
          In r1 out1 -> In r2 out2 -> endpoint_of r1 = endpoint_of r2 ->
          source_count r2 = (2 * source_count r1)%Z
          /\ speed_ms r2 = speed_ms r1
          /\ reliability r2 = reliability r1
          /\ anonymity r2 = anonymity r1
          /\ protocol r2 = protocol r1
          /\ country r2 = country r1
          /\ proxy_url r2 = proxy_url r1).
Proof.
  intros Hnd.
  destruct (merge_char M) as (pre1 & Hout1 & _).
  destruct (merge_char (M ++ M)) as (pre2 & Hout2 & _).
  exists (sort_reverse quality_score pre1), (sort_reverse quality_score pre2).
  split; [exact Hout1 | ]. split; [exact Hout2 | ].
  split; [eapply merge_keys_NoDup, Hout1 | ].
  split; [eapply merge_keys_NoDup, Hout2 | ].
  split; [intros k; eapply merge_keys_In, Hout1 | ].
  split.
  { intros k. rewrite (merge_keys_In _ _ k Hout2), map_app, in_app_iff. tauto. }
  intros r1 r2 Hr1 Hr2 E.
  destruct (merge_In _ _ _ Hout1 Hr1) as (b1 & rest1 & Hg1 & E1).
  destruct (merge_In _ _ _ Hout2 Hr2) as (b2 & rest2 & Hg2 & E2).
  assert (rest1 = []) by (eapply group_of_NoDup_single; eassumption).
  subst rest1.
  rewrite <- E, group_of_app, Hg1 in Hg2. simpl in Hg2.
  injection Hg2 as <- <-.
  rewrite E1, E2. unfold merge_with_base.
  rewrite merge_step_twice. cbn. repeat split.
Qed.

Lemma merge_self_concat_witness :
  List.NoDup (map endpoint_of [raw_a1; raw_b1; raw_c1])
  /\ exists out1 out2,
    _merge_and_deduplicate [raw_a1; raw_b1; raw_c1] = Ok out1
    /\ _merge_and_deduplicate
         ([raw_a1; raw_b1; raw_c1] ++ [raw_a1; raw_b1; raw_c1]) = Ok out2
    /\ List.NoDup (map endpoint_of out1)
    /\ List.NoDup (map endpoint_of out2)
    /\ (forall k, In k (map endpoint_of out1) <->
                  In k (map endpoint_of [raw_a1; raw_b1; raw_c1]))
    /\ (forall k, In k (map endpoint_of out2) <->
                  In k (map endpoint_of [raw_a1; raw_b1; raw_c1]))
    /\ (forall r1 r2,
          In r1 out1 -> In r2 out2 -> endpoint_of r1 = endpoint_of r2 ->
          source_count r2 = (2 * source_count r1)%Z
          /\ speed_ms r2 = speed_ms r1
          /\ reliability r2 = reliability r1
          /\ anonymity r2 = anonymity r1
          /\ protocol r2 = protocol r1
          /\ country r2 = country r1
          /\ proxy_url r2 = proxy_url r1).
Proof.
  assert (Hnd : List.NoDup (map endpoint_of [raw_a1; raw_b1; raw_c1])).
  { repeat constructor; simpl; intuition discriminate. }
  split; [exact Hnd | ].
  apply (merge_self_concat [raw_a1; raw_b1; raw_c1] Hnd).
Defined.

(** ** The spot checker *)

Lemma take_out_spec {A : Type} (i : nat) (l : list A) :
  (i < length l)%nat ->
  exists x rest,
    take_out i l = Some (x, rest)
    /\ Permutation (x :: rest) l
    /\ S (length rest) = length l.
Proof.
  revert i. induction l as [ | y l IH]; intros i Hi; [simpl in Hi; lia | ].
  destruct i as [ | i]; simpl in *.
  - exists y, l. repeat split; reflexivity.
  - destruct (IH i) as (x & rest & Heq & Hperm & Hlen); [lia | ].
    rewrite Heq.
    exists x, (y :: rest). split; [reflexivity | ]. split.
    + rewrite perm_swap. constructor. exact Hperm.
    + simpl. lia.
Qed.

(** A draw of [k] elements from a pool of at least [k] has length [k] and
    uses every position of the pool at most once. *)
Lemma draw_spec {A : Type} (rng : nat -> nat) (k : nat) :
  forall (step : nat) (pool : list A),
  (k <= length pool)%nat ->
  length (draw rng step k pool) = k
  /\ exists rest, Permutation (draw rng step k pool ++ rest) pool.
Proof.
  induction k as [ | k IH]; intros step pool Hk; simpl.
  - split; [reflexivity | ]. exists pool. reflexivity.
  - destruct (take_out_spec (rng step mod length pool) pool)
      as (x & rest & -> & Hperm & Hlen).
    { apply Nat.mod_upper_bound. lia. }
    destruct (IH (S step) rest) as [Hl (rest' & Hrest)]; [lia | ].
    split; [simpl; lia | ].
    exists rest'. simpl. rewrite Hrest. exact Hperm.
Qed.

Lemma successes_le {A : Type} (probe : A -> probe_result) (sample : list A) :
  (length (List.filter is_True (map probe sample)) <= length sample)%nat.
Proof.
  rewrite <- (length_map probe sample). apply List.filter_length_le.
Qed.

Lemma ratio_unit (s n : nat) :
  (s <= n)%nat -> (1 <= n)%nat ->
  0 <= inject_Z (Z.of_nat s) / inject_Z (Z.of_nat n) <= 1.
Proof.
  intros Hs Hn.
  assert (Hpos : 0 < inject_Z (Z.of_nat n)).
  { change 0 with (inject_Z 0). rewrite <- Zlt_Qlt. lia. }
  assert (Hs0 : 0 <= inject_Z (Z.of_nat s)).
  { change 0 with (inject_Z 0). rewrite <- Zle_Qle. lia. }
  assert (Hsn : inject_Z (Z.of_nat s) <= inject_Z (Z.of_nat n)).
  { rewrite <- Zle_Qle. lia. }
  split.
  - apply Qle_shift_div_l; [exact Hpos | lra].
  - apply Qle_shift_div_r; [exact Hpos | lra].
Qed.

(** With a non-empty list and a sample size of at least one, the sample
    request is valid, the sample is non-empty and the ratio is returned. *)
Lemma spot_check_defined (rng : nat -> nat) (probe : Proxy -> probe_result)
    (proxies : list Proxy) (N : Z) :
  proxies <> [] -> (1 <= N)%Z ->
  let n := Z.min N (Z.of_nat (length proxies)) in
  exists sample rest,
    random_sample rng proxies n = Ok sample
    /\ Z.of_nat (length sample) = n
    /\ (1 <= n)%Z
    /\ Permutation (sample ++ rest) proxies
    /\ spot_check_proxies rng probe proxies N =
       Ok (inject_Z (Z.of_nat (length (List.filter is_True (map probe sample))))
           / inject_Z n).
Proof.
  intros Hne HN n.
  assert (Hlen : (1 <= length proxies)%nat).
  { destruct proxies; [congruence | simpl; lia]. }
  assert (Hn : (1 <= n <= Z.of_nat (length proxies))%Z) by (unfold n; lia).
  destruct (draw_spec rng (Z.to_nat n) 0 proxies) as [Hl (rest & Hperm)];
    [lia | ].
  exists (draw rng 0 (Z.to_nat n) proxies), rest.
  assert (Hs : random_sample rng proxies n = Ok (draw rng 0 (Z.to_nat n) proxies)).
  { unfold random_sample.
    destruct (Z.ltb_spec n 0); [lia | ].
    destruct (Z.ltb_spec (Z.of_nat (length proxies)) n); [lia | ].
    reflexivity. }
  split; [exact Hs | ].
  split; [rewrite Hl; lia | ].
  split; [lia | ].
  split; [exact Hperm | ].
  unfold spot_check_proxies.
  destruct proxies as [ | p ps]; [congruence | ].
  fold n. rewrite Hs. cbn [bind]. unfold true_div.
  rewrite Hl, Z2Nat.id by lia.
  destruct (Z.eqb_spec n 0); [lia | reflexivity].
Qed.

(** C5, as amended. An empty list gives 0.0. For a non-empty list and a
    sample size of at least one, the sample consists of min(N, length)
    records at distinct positions and the result is the number of
    successful probes divided by min(N, length), a value in [0,1]. *)
Theorem spot_check_ratio (rng : nat -> nat) (probe : Proxy -> probe_result)
    (proxies : list Proxy) (N : Z) :
  spot_check_proxies rng probe [] N = Ok 0.0
  /\ (proxies <> [] -> (1 <= N)%Z ->
      exists sample rest,
        random_sample rng proxies (Z.min N (Z.of_nat (length proxies)))
          = Ok sample
        /\ Z.of_nat (length sample) = Z.min N (Z.of_nat (length proxies))
        /\ Permutation (sample ++ rest) proxies
        /\ spot_check_proxies rng probe proxies N =
           Ok (inject_Z (Z.of_nat (length (List.filter is_True (map probe sample))))
               / inject_Z (Z.min N (Z.of_nat (length proxies))))
        /\ 0 <= inject_Z (Z.of_nat (length (List.filter is_True (map probe sample))))
                / inject_Z (Z.min N (Z.of_nat (length proxies))) <= 1).
Proof.
  split; [reflexivity | ].
  intros Hne HN.
  destruct (spot_check_defined rng probe proxies N Hne HN)
    as (sample & rest & Hs & Hlen & Hn & Hperm & Hres).
  exists sample, rest.
  repeat (split; [assumption | ]).
  rewrite <- Hlen. apply ratio_unit; [apply successes_le | lia].
Qed.

Lemma spot_check_ratio_witness :
  spot_check_proxies (fun i => i)
    (fun p => if (port p =? 80)%Z then PTrue else PFalse) [] 2 = Ok 0.0
  /\ exists sample rest,
        random_sample (fun i => i) [raw_a1; raw_b1; raw_c1] 2 = Ok sample
        /\ Z.of_nat (length sample) = 2%Z
        /\ Permutation (sample ++ rest) [raw_a1; raw_b1; raw_c1]
        /\ spot_check_proxies (fun i => i)
             (fun p => if (port p =? 80)%Z then PTrue else PFalse)
             [raw_a1; raw_b1; raw_c1] 2 =
           Ok (inject_Z (Z.of_nat (length (List.filter is_True
                 (map (fun p => if (port p =? 80)%Z then PTrue else PFalse) sample))))
               / inject_Z 2)
        /\ 0 <= inject_Z (Z.of_nat (length (List.filter is_True
                 (map (fun p => if (port p =? 80)%Z then PTrue else PFalse) sample))))
                / inject_Z 2 <= 1.
Proof.
  destruct (spot_check_ratio (fun i => i)
              (fun p => if (port p =? 80)%Z then PTrue else PFalse)
              [raw_a1; raw_b1; raw_c1] 2) as [Hempty Hratio].
  split; [exact Hempty | ].
  apply Hratio; [discriminate | lia].
Defined.

(** A sample size of zero with a non-empty list: the sample is empty and
    the final division raises. *)
Lemma spot_check_zero_sample_size :
  spot_check_proxies (fun i => i) (fun _ => PTrue) [raw_a1] 0
    = Raise ZeroDivisionError
  /\ ~ exists q, spot_check_proxies (fun i => i) (fun _ => PTrue) [raw_a1] 0
                 = Ok q.
Proof.
  split; [reflexivity | ].
  intros (q & Hq). discriminate Hq.
Qed.

(** C10. For a non-empty list and a sample size of at least one the sample
    has min(N, length) >= 1 elements, so the division is defined and a ratio
    is returned; with a sample size of zero the divisor is zero. *)
Theorem spot_check_divisor_nonzero :
  (forall (rng : nat -> nat) (probe : Proxy -> probe_result)
          (proxies : list Proxy) (N : Z),
     proxies <> [] -> (1 <= N)%Z ->
     exists sample q,
       random_sample rng proxies (Z.min N (Z.of_nat (length proxies)))
         = Ok sample
       /\ Z.of_nat (length sample) = Z.min N (Z.of_nat (length proxies))
       /\ (1 <= length sample)%nat
       /\ true_div (Z.of_nat (length (List.filter is_True (map probe sample))))
                   (Z.of_nat (length sample)) = Ok q
       /\ spot_check_proxies rng probe proxies N = Ok q)
  /\ (exists proxies : list Proxy,
        proxies <> []
        /\ forall (rng : nat -> nat) (probe : Proxy -> probe_result),
             random_sample rng proxies (Z.min 0 (Z.of_nat (length proxies)))
               = Ok []
             /\ spot_check_proxies rng probe proxies 0
                = Raise ZeroDivisionError).
Proof.
  split.
  - intros rng probe proxies N Hne HN.
    destruct (spot_check_defined rng probe proxies N Hne HN)
      as (sample & rest & Hs & Hlen & Hn & Hperm & Hres).
    exists sample. eexists.
    split; [exact Hs | ]. split; [exact Hlen | ]. split; [lia | ].
    split; [ | exact Hres].
    unfold true_div. rewrite Hlen.
    destruct (Z.eqb_spec (Z.min N (Z.of_nat (length proxies))) 0);
      [lia | reflexivity].
  - exists [raw_a1]. split; [discriminate | ].
    intros rng probe. split; reflexivity.
Qed.

Lemma spot_check_divisor_nonzero_witness :
  exists q, spot_check_proxies (fun i => i) (fun _ => PTrue)
              [raw_a1; raw_b1; raw_c1] 5 = Ok q.
Proof.
  destruct spot_check_divisor_nonzero as [Hdef _].
  destruct (Hdef (fun i => i) (fun _ => PTrue) [raw_a1; raw_b1; raw_c1] 5%Z)
    as (sample & q & _ & _ & _ & _ & Hq).
  - discriminate.
  - lia.
  - exists q. exact Hq.
Defined.

(** ** The fetch orchestrator *)

Lemma fetch_step_eq (st : list Proxy * gmap string string) (name : string)
    (o : outcome) :
  fetch_step st (name, o) =
  (fst st ++ records_of o, <[name := status_of o]> (snd st)).
Proof.
  destruct st as [all_proxies st], o as [proxies | exc]; simpl;
    [ | rewrite app_nil_r]; reflexivity.
Qed.

Lemma status_of_ok (o : outcome) : status_of o = "ok"%string <-> succeeded o.
Proof.
  destruct o as [proxies | exc]; simpl.
  - split; [intros _; exists proxies; reflexivity | reflexivity].
  - split; [discriminate | intros (proxies & H); discriminate H].
Qed.

Lemma merge_total (all : list Proxy) :
  exists out, _merge_and_deduplicate all = Ok out.
Proof.
  destruct (merge_char all) as (pre & Hout & _). eauto.
Qed.

(** The raw concatenation is not what the orchestrator returns: two feeds
    reporting the same endpoint yield one merged, scored record. *)
Lemma fetch_all_sources_not_concatenation :
  ~ exists status,
      fetch_all_sources (Ok [raw_a1]) (Ok [raw_a2])
        (Raise (OtherError "TimeoutError"))
      = Ok ([raw_a1] ++ [raw_a2], status).
Proof.
  intros (status & H).
  apply (f_equal (fun res => match res with
                             | Ok (merged, _) => length merged
                             | Raise _ => O
                             end)) in H.
  vm_compute in H. discriminate H.
Qed.

(** C6, as amended. Whatever the three adapters do, the orchestrator
    returns the merge of the concatenated record lists of the adapters that
    succeeded, and a status map whose entry for each source is "ok" exactly
    when that adapter succeeded (even with no record) and "error: <kind>"
    otherwise; each adapter contributes its own records and status
    independently of the others. *)
Theorem fetch_all_sources_isolated (proxifly vakhov clearproxy : outcome) :
  exists merged status,
    fetch_all_sources proxifly vakhov clearproxy = Ok (merged, status)
    /\ _merge_and_deduplicate
         (records_of proxifly ++ records_of vakhov ++ records_of clearproxy)
       = Ok merged
    /\ status !! "proxifly"%string = Some (status_of proxifly)
    /\ status !! "vakhov"%string = Some (status_of vakhov)
    /\ status !! "clearproxy"%string = Some (status_of clearproxy)
    /\ (status !! "proxifly"%string = Some "ok"%string <-> succeeded proxifly)
    /\ (status !! "vakhov"%string = Some "ok"%string <-> succeeded vakhov)
    /\ (status !! "clearproxy"%string = Some "ok"%string
        <-> succeeded clearproxy)
    /\ (forall exc, proxifly = Raise exc ->
          status !! "proxifly"%string
          = Some ("error: " +:+ exn_name exc)%string)
    /\ (forall exc, vakhov = Raise exc ->
          status !! "vakhov"%string = Some ("error: " +:+ exn_name exc)%string)
    /\ (forall exc, clearproxy = Raise exc ->
          status !! "clearproxy"%string
          = Some ("error: " +:+ exn_name exc)%string).
Proof.
  destruct (merge_total
              (records_of proxifly ++ records_of vakhov ++ records_of clearproxy))
    as (merged & Hm).
  exists merged. eexists.
  split.
  { unfold fetch_all_sources, fetchers. cbn [fold_left].
    rewrite !fetch_step_eq. cbn [fst snd app].
    rewrite <- app_assoc, Hm. reflexivity. }
  split; [exact Hm | ].
  assert (H1 : (<["clearproxy"%string := status_of clearproxy]>
                 (<["vakhov"%string := status_of vakhov]>
                    (<["proxifly"%string := status_of proxifly]>
                       (∅ : gmap string string))))
               !! "proxifly"%string = Some (status_of proxifly)).
  { rewrite !lookup_insert_ne by discriminate. apply lookup_insert_eq. }
  assert (H2 : (<["clearproxy"%string := status_of clearproxy]>
                 (<["vakhov"%string := status_of vakhov]>
                    (<["proxifly"%string := status_of proxifly]>
                       (∅ : gmap string string))))
               !! "vakhov"%string = Some (status_of vakhov)).
  { rewrite lookup_insert_ne by discriminate. apply lookup_insert_eq. }
  assert (H3 : (<["clearproxy"%string := status_of clearproxy]>
                 (<["vakhov"%string := status_of vakhov]>
                    (<["proxifly"%string := status_of proxifly]>
                       (∅ : gmap string string))))
               !! "clearproxy"%string = Some (status_of clearproxy)).
  { apply lookup_insert_eq. }
  rewrite H1, H2, H3.
  repeat split; try (intros exc ->; reflexivity);
    try (intros H; apply status_of_ok; congruence);
    try (intros H; apply status_of_ok in H; congruence).
Qed.

(** ** The cache and the refresh cycle *)

(** C7. [update] replaces the records, the status map and the capture
    timestamp (by the current time) and leaves the spot-check ratio as it
    was. *)
Theorem update_frame (self : ProxyCache) (now : Q) (r : list Proxy)
    (s : gmap string string) :
  proxies (update self now r s) = r
  /\ source_status (update self now r s) = s
  /\ cached_at (update self now r s) = now
  /\ spot_check_success_rate (update self now r s)
     = spot_check_success_rate self.
Proof. repeat split. Qed.

Lemma is_empty_false (cache : ProxyCache) :
  proxies cache <> [] -> is_empty cache = false.
Proof.
  unfold is_empty. destruct (proxies cache); [congruence | reflexivity].
Qed.

(** C3. A cycle that yields no merged record while the cache holds records
    leaves the records, the capture timestamp and the spot-check ratio of
    the cache unchanged and replaces only its status map by the new one. *)
Theorem refresh_keeps_stale (sample_size : Z) (w : world)
    (cache : ProxyCache) (status : gmap string string) :
  fetch_all_sources (w_proxifly w) (w_vakhov w) (w_clearproxy w)
    = Ok ([], status) ->
  proxies cache <> [] ->
  refresh_cache sample_size w cache = set_source_status cache status
  /\ proxies (refresh_cache sample_size w cache) = proxies cache
  /\ cached_at (refresh_cache sample_size w cache) = cached_at cache
  /\ spot_check_success_rate (refresh_cache sample_size w cache)
     = spot_check_success_rate cache
  /\ source_status (refresh_cache sample_size w cache) = status.
Proof.
  intros Hfetch Hne.
  assert (E : refresh_cache sample_size w cache = set_source_status cache status).
  { unfold refresh_cache. rewrite Hfetch, (is_empty_false _ Hne). reflexivity. }
  rewrite E. repeat split.
Qed.

Lemma refresh_keeps_stale_witness :
  refresh_cache 5 outage_world filled_cache
    = set_source_status filled_cache
        (<["clearproxy"%string := "error: HTTPStatusError"%string]>
           (<["vakhov"%string := "error: ConnectTimeout"%string]>
              (<["proxifly"%string := "ok"%string]> ∅)))
  /\ proxies (refresh_cache 5 outage_world filled_cache) = [raw_a1; raw_b1]
  /\ cached_at (refresh_cache 5 outage_world filled_cache) = 1700000000
  /\ spot_check_success_rate (refresh_cache 5 outage_world filled_cache)
     = Some 0.5
  /\ source_status (refresh_cache 5 outage_world filled_cache)
     = <["clearproxy"%string := "error: HTTPStatusError"%string]>
         (<["vakhov"%string := "error: ConnectTimeout"%string]>
            (<["proxifly"%string := "ok"%string]> ∅)).
Proof.
  apply (refresh_keeps_stale 5 outage_world filled_cache).
  - reflexivity.
  - discriminate.
Defined.

(** ** The specification's worked examples *)

(** Speeds 120 and 80 merge to 80, reliabilities 0.6 and 0.9 to 0.9, tags
    transparent and elite to elite; the first record's protocol is kept. *)
Example merge_two_observations :
  exists r,
    _merge_and_deduplicate [raw_a1; raw_a2] = Ok [r]
    /\ speed_ms r = Some 80 /\ reliability r = Some 0.9
    /\ anonymity r = Some "elite"%string /\ source_count r = 2%Z
    /\ protocol r = "http"%string /\ quality_score r = 0.767.
Proof. eexists. repeat split. Qed.

(** Two feeds report 1.1.1.1:80 with speeds 50 and 30, the third fails. *)
Example end_to_end :
  exists r status,
    fetch_all_sources
      (Ok [raw_record "1.1.1.1" 80 "http" "http://1.1.1.1:80" None (Some 50) None])
      (Ok [raw_record "1.1.1.1" 80 "http" "http://1.1.1.1:80" None (Some 30) None])
      (Raise (OtherError "ReadTimeout"))
    = Ok ([r], status)
    /\ source_count r = 2%Z /\ speed_ms r = Some 30
    /\ status !! "proxifly"%string = Some "ok"%string
    /\ status !! "vakhov"%string = Some "ok"%string
    /\ status !! "clearproxy"%string = Some "error: ReadTimeout"%string.
Proof.
  eexists. eexists. split; [reflexivity | ].
  split; [reflexivity | ]. split; [reflexivity | ].
  rewrite !lookup_insert_ne by discriminate.
  split; [apply lookup_insert_eq | ].
  split; [rewrite lookup_insert_ne by discriminate; apply lookup_insert_eq | ].
  apply lookup_insert_eq.
Qed.

(** Ties keep the order of first occurrence: 2.2.2.2 and 3.3.3.3 both score
    0.1 and stay in input order behind the better record. *)
Example merge_order :
  option_map (map ip)
    (match _merge_and_deduplicate [raw_b1; raw_c1; raw_a1] with
     | Ok out => Some out
     | Raise _ => None
     end)
  = Some ["1.1.1.1"; "2.2.2.2"; "3.3.3.3"]%string.
Proof. vm_compute. reflexivity. Qed.

(** * Further properties of the code *)

(** ** Rounding, continued *)

Lemma round_half_even_floor (x : Q) :
  (Qfloor x <= round_half_even x <= Qfloor x + 1)%Z.
Proof.
  unfold round_half_even.
  destruct (Qcompare _ _); [destruct (Z.even _) | | ]; lia.
Qed.


Lemma round_half_even_mono (x y : Q) :
  x <= y -> (round_half_even x <= round_half_even y)%Z.
Proof.
  intros Hxy.
  pose proof (Qfloor_resp_le _ _ Hxy) as Hf.
  destruct (Z.eq_dec (Qfloor x) (Qfloor y)) as [Ef | Nf].
  - unfold round_half_even. rewrite Ef.
    destruct (Qcompare (x - inject_Z (Qfloor y)) (1 # 2)) eqn:Ex;
      destruct (Qcompare (y - inject_Z (Qfloor y)) (1 # 2)) eqn:Ey;
      try (destruct (Z.even (Qfloor y)); lia);
      try lia;
      exfalso;
      repeat match goal with
             | H : Qcompare _ _ = Eq |- _ => apply Qeq_alt in H
             | H : Qcompare _ _ = Lt |- _ => apply Qlt_alt in H
             | H : Qcompare _ _ = Gt |- _ => apply Qgt_alt in H
             end; lra.
  - pose proof (round_half_even_floor x). pose proof (round_half_even_floor y).
    lia.
Qed.

Lemma round3_mono (x y : Q) : x <= y -> round3 x <= round3 y.
Proof.
  intros H. unfold round3, Qle. simpl.
  apply Z.mul_le_mono_nonneg_r; [lia | ].
  apply round_half_even_mono. lra.
Qed.

(** ** Staleness and age of the cache *)

Lemma cached_at_nonzero (x : Q) : ~ x == 0 -> Qeq_bool x 0.0 = false.
Proof.
  intros H. destruct (Qeq_bool x 0.0) eqn:E; [ | reflexivity].
  apply Qeq_bool_iff in E. exfalso. apply H. rewrite E. reflexivity.
Qed.

(** X1. A cache that was never written is stale for every ttl; after an
    [update] at a time other than 0.0 the cache is stale exactly when more
    than ttl has elapsed, so it is fresh right after the update for every
    non-negative ttl. *)
Theorem is_stale_after_update (self : ProxyCache) (t0 t ttl : Q)
    (r : list Proxy) (s : gmap string string) :
  ~ t0 == 0 ->
  is_stale new_cache t ttl = true
  /\ (is_stale (update self t0 r s) t ttl = true <-> ttl < t - t0)
  /\ (0 <= ttl -> is_stale (update self t0 r s) t0 ttl = false).
Proof.
  intros Ht0.
  assert (E : forall t', is_stale (update self t0 r s) t' ttl
                         = Qltb ttl (t' - t0)).
  { intros t'. unfold is_stale. cbn [cached_at update].
    rewrite cached_at_nonzero by exact Ht0. reflexivity. }
  split; [reflexivity | ]. split.
  - rewrite E. apply Qltb_lt.
  - intros Httl. rewrite E. apply Qltb_ge. lra.
Qed.

Lemma is_stale_after_update_witness :
  is_stale new_cache 1700000300 600 = true
  /\ (is_stale (update new_cache 1700000000 [raw_a1] ∅) 1700000300 600 = true
      <-> 600 < 1700000300 - 1700000000)
  /\ (0 <= 600 ->
      is_stale (update new_cache 1700000000 [raw_a1] ∅) 1700000000 600 = false).
Proof.
  apply (is_stale_after_update new_cache 1700000000 1700000300 600 [raw_a1] ∅).
  unfold Qeq. simpl. lia.
Defined.





(** ** Filtering the cached records *)



Lemma StronglySorted_filter {A : Type} (R : A -> A -> Prop) (f : A -> bool)
    (l : list A) :
  StronglySorted R l -> StronglySorted R (List.filter f l).
Proof.
  induction 1 as [ | a l Hs IH Ha]; simpl; [constructor | ].
  destruct (f a); [ | exact IH].
  constructor; [exact IH | ].
  apply List.Forall_forall. intros x Hx. apply List.filter_In in Hx as [Hx _].
  rewrite List.Forall_forall in Ha. apply Ha, Hx.
Qed.

Lemma StronglySorted_app_inv {A : Type} (R : A -> A -> Prop) (l1 l2 : list A) :
  StronglySorted R (l1 ++ l2) ->
  StronglySorted R l1 /\ forall a b, In a l1 -> In b l2 -> R a b.
Proof.
  induction l1 as [ | x l1 IH]; simpl; intros H.
  - split; [constructor | intros a b []].
  - apply StronglySorted_inv in H as [Hs Hx].
    destruct (IH Hs) as [H1 H12]. split.
    + constructor; [exact H1 | ].
      apply Forall_app in Hx as [Hx _]. exact Hx.
    + intros a b [<- | Ha] Hb; [ | apply H12; assumption].
      rewrite List.Forall_forall in Hx. apply Hx, in_app_iff. auto.
Qed.

Lemma opt_stage_sorted (R : Proxy -> Proxy -> Prop) (o : option string)
    (F : string -> Proxy -> bool) (l : list Proxy) :
  StronglySorted R l -> StronglySorted R (opt_stage o F l).
Proof.
  intros H. unfold opt_stage.
  destruct o as [s | ]; [destruct (str_truthy s) | ];
    auto using StronglySorted_filter.
Qed.

Section FilterProxies.
Variables str_lower str_upper : string -> string.
Variables (proxies : list Proxy) (protocol' country' anonymity' : option string)
  (min_score : Q).

(** The filter stages before the truncation. *)
Lemma filter_proxies_stages (limit : Z) :
  filter_proxies str_lower str_upper proxies protocol' country' anonymity'
    min_score limit =
  let matching :=
    filter_proxies str_lower str_upper proxies protocol' country' anonymity'
      min_score 0 in
  if (0 <? limit)%Z then firstn (Z.to_nat limit) matching else matching.
Proof.
  unfold filter_proxies. cbv zeta.
  destruct (Z.eqb_spec limit 0) as [-> | N]; [reflexivity | ].
  destruct (0 <? limit)%Z; reflexivity.
Qed.

Lemma filter_proxies_zero :
  filter_proxies str_lower str_upper proxies protocol' country' anonymity'
    min_score 0 =
  let r1 := opt_stage protocol'
              (fun s px => String.eqb (protocol px) (str_lower s)) proxies in
  let r2 := opt_stage country'
              (fun s px =>
                 match country px with
                 | Some pc => str_truthy pc
                              && String.eqb (str_upper pc) (str_upper s)
                 | None => false
                 end) r1 in
  let r3 := opt_stage anonymity'
              (fun s px =>
                 match anonymity px with
                 | Some pa => str_truthy pa
                              && String.eqb (str_lower pa) (str_lower s)
                 | None => false
                 end) r2 in
  if Qltb 0 min_score
  then List.filter (fun px => Qle_bool min_score (quality_score px)) r3
  else r3.
Proof. reflexivity. Qed.



(** X5. A positive limit keeps the first [limit] matching records: the
    answer has at most [limit] entries and is a prefix of the answer for any
    larger limit and of the unlimited answer. *)
Theorem filter_proxies_limit (limit limit' : Z) :
  (0 < limit <= limit')%Z ->
  (length (filter_proxies str_lower str_upper proxies protocol' country'
             anonymity' min_score limit) <= Z.to_nat limit)%nat
  /\ filter_proxies str_lower str_upper proxies protocol' country' anonymity'
       min_score limit
     = firstn (Z.to_nat limit)
         (filter_proxies str_lower str_upper proxies protocol' country'
            anonymity' min_score limit')
  /\ filter_proxies str_lower str_upper proxies protocol' country' anonymity'
       min_score limit
     = firstn (Z.to_nat limit)
         (filter_proxies str_lower str_upper proxies protocol' country'
            anonymity' min_score 0).
Proof.
  intros [Hpos Hle].
  rewrite (filter_proxies_stages limit), (filter_proxies_stages limit').
  cbv zeta.
  destruct (Z.ltb_spec 0 limit); [ | lia].
  destruct (Z.ltb_spec 0 limit'); [ | lia].
  split; [apply firstn_le_length | ]. split; [ | reflexivity].
  rewrite firstn_firstn. f_equal. lia.
Qed.

(** X6. Filtering keeps the ranking: on a list sorted by descending score
    the answer is sorted too, and with a positive limit every matching
    record left out scores no higher than every record returned. *)
Theorem filter_proxies_ranked (limit : Z) :
  StronglySorted (fun a b => quality_score b <= quality_score a) proxies ->
  StronglySorted (fun a b => quality_score b <= quality_score a)
    (filter_proxies str_lower str_upper proxies protocol' country' anonymity'
       min_score limit)
  /\ exists omitted,
       filter_proxies str_lower str_upper proxies protocol' country'
         anonymity' min_score 0
       = filter_proxies str_lower str_upper proxies protocol' country'
           anonymity' min_score limit ++ omitted
       /\ forall a b,
            In a (filter_proxies str_lower str_upper proxies protocol'
                    country' anonymity' min_score limit) ->
            In b omitted -> quality_score b <= quality_score a.
Proof.
  intros Hs.
  assert (H0 : StronglySorted (fun a b => quality_score b <= quality_score a)
                 (filter_proxies str_lower str_upper proxies protocol'
                    country' anonymity' min_score 0)).
  { rewrite filter_proxies_zero. cbv zeta.
    destruct (Qltb 0 min_score);
      [apply StronglySorted_filter | ]; repeat apply opt_stage_sorted; exact Hs. }
  rewrite (filter_proxies_stages limit). cbv zeta.
  destruct (0 <? limit)%Z.
  - rewrite <- (firstn_skipn (Z.to_nat limit)) in H0.
    apply StronglySorted_app_inv in H0 as [H1 H2].
    split; [exact H1 | ].
    exists (skipn (Z.to_nat limit)
              (filter_proxies str_lower str_upper proxies protocol' country'
                 anonymity' min_score 0)).
    split; [symmetry; apply firstn_skipn | exact H2].
  - split; [exact H0 | ]. exists []. split; [symmetry; apply app_nil_r | ].
    intros a b _ [].
Qed.
End FilterProxies.


Lemma filter_proxies_limit_witness :
  (length (filter_proxies lower_ascii upper_ascii sample_cached
             None None None 0 2) <= Z.to_nat 2)%nat
  /\ filter_proxies lower_ascii upper_ascii sample_cached None None None 0 2
     = firstn (Z.to_nat 2)
         (filter_proxies lower_ascii upper_ascii sample_cached
            None None None 0 3)
  /\ filter_proxies lower_ascii upper_ascii sample_cached None None None 0 2
     = firstn (Z.to_nat 2)
         (filter_proxies lower_ascii upper_ascii sample_cached
            None None None 0 0).
Proof.
  apply (filter_proxies_limit lower_ascii upper_ascii sample_cached
           None None None 0 2 3).
  lia.
Defined.

Lemma sample_cached_sorted :
  StronglySorted (fun a b => quality_score b <= quality_score a) sample_cached.
Proof.
  unfold sample_cached.
  repeat (constructor; [ | repeat (constructor; [unfold Qle; simpl; lia | ]);
                           constructor]).
  constructor.
Qed.

Lemma filter_proxies_ranked_witness :
  StronglySorted (fun a b => quality_score b <= quality_score a)
    (filter_proxies lower_ascii upper_ascii sample_cached
       (Some "socks5"%string) None None 0 1)
  /\ exists omitted,
       filter_proxies lower_ascii upper_ascii sample_cached
         (Some "socks5"%string) None None 0 0
       = filter_proxies lower_ascii upper_ascii sample_cached
           (Some "socks5"%string) None None 0 1 ++ omitted
       /\ forall a b,
            In a (filter_proxies lower_ascii upper_ascii sample_cached
                    (Some "socks5"%string) None None 0 1) ->
            In b omitted -> quality_score b <= quality_score a.
Proof.
  apply (filter_proxies_ranked lower_ascii upper_ascii sample_cached
           (Some "socks5"%string) None None 0 1).
  exact sample_cached_sorted.
Defined.

(** ** The health report *)

Lemma sum_scores_acc (l : list Proxy) (acc : Q) :
  fold_left (fun a p => a + quality_score p) l acc == acc + sum_scores l.
Proof.
  unfold sum_scores. revert acc.
  induction l as [ | p l IH]; intros acc; simpl; [ring | ].
  rewrite IH, (IH (0 + quality_score p)). ring.
Qed.

Lemma sum_scores_bounds (lo hi : Q) (l : list Proxy) :
  Forall (fun p => lo <= quality_score p <= hi) l ->
  inject_Z (Z.of_nat (length l)) * lo <= sum_scores l
  /\ sum_scores l <= inject_Z (Z.of_nat (length l)) * hi.
Proof.
  induction 1 as [ | p l [Hlo Hhi] _ [IHlo IHhi]].
  - unfold sum_scores. cbn [length fold_left Z.of_nat].
    change (inject_Z (Z.of_nat 0)) with 0. split; lra.
  - assert (E : sum_scores (p :: l) == quality_score p + sum_scores l).
    { unfold sum_scores at 1. simpl. rewrite sum_scores_acc. ring. }
    rewrite E. cbn [length]. rewrite Nat2Z.inj_succ. unfold Z.succ.
    rewrite inject_Z_plus. change (inject_Z 1) with 1.
    split; lra.
Qed.

(** X7. The health status is "unhealthy" exactly when the cache holds no
    record (whatever the spot-check ratio), "degraded" exactly when it holds
    records and a ratio below 0.5 is recorded, and "healthy" otherwise; the
    average score is absent exactly when the cache is empty. *)
Theorem health_status (now : Q) (cache : ProxyCache) :
  (status (health now cache) = "unhealthy"%string <-> proxies cache = [])
  /\ (status (health now cache) = "degraded"%string <->
      proxies cache <> []
      /\ exists rate, spot_check_success_rate cache = Some rate
                      /\ rate < 0.5)
  /\ (status (health now cache) = "healthy"%string <->
      proxies cache <> []
      /\ forall rate, spot_check_success_rate cache = Some rate ->
                      0.5 <= rate)
  /\ (avg_quality_score (health now cache) = None <-> proxies cache = [])
  /\ cache_size (health now cache) = length (proxies cache).
Proof.
  unfold health, is_empty. cbn [status avg_quality_score cache_size].
  destruct (proxies cache) as [ | p ps]; cbn [length Nat.eqb].
  - repeat split; try congruence; try discriminate;
      intros [H _]; congruence.
  - destruct (spot_check_success_rate cache) as [rate | ].
    + destruct (Qltb rate 0.5) eqn:E.
      * apply Qltb_lt in E.
        repeat split; try discriminate; eauto.
        intros [_ H]. specialize (H rate eq_refl). lra.
      * apply Qltb_ge in E.
        repeat split; try discriminate.
        -- intros (_ & rate' & [= <-] & Hlt). lra.
        -- intros rate' [= <-]. exact E.
    + repeat split; try discriminate.
      intros (_ & rate' & H & _). discriminate H.
Qed.

(** X8. When every cached score lies between [lo] and [hi], the reported
    average lies between [round(lo, 3)] and [round(hi, 3)]. *)
Theorem health_average_range (now lo hi : Q) (cache : ProxyCache) :
  proxies cache <> [] ->
  Forall (fun p => lo <= quality_score p <= hi) (proxies cache) ->
  exists avg,
    avg_quality_score (health now cache) = Some avg
    /\ round3 lo <= avg <= round3 hi.
Proof.
  intros Hne Hall.
  destruct (sum_scores_bounds lo hi _ Hall) as [Hlo Hhi].
  unfold health. cbn [avg_quality_score].
  destruct (proxies cache) as [ | p ps] eqn:E; [congruence | ].
  eexists. split; [reflexivity | ].
  set (n := inject_Z (Z.of_nat (length (p :: ps)))) in *.
  assert (Hn : 0 < n).
  { unfold n. change 0 with (inject_Z 0). rewrite <- Zlt_Qlt.
    cbn [length]. lia. }
  split; apply round3_mono.
  - apply Qle_shift_div_l; [exact Hn | lra].
  - apply Qle_shift_div_r; [exact Hn | lra].
Qed.

Lemma health_average_range_witness :
  exists avg,
    avg_quality_score
      (health 1700000300
         (update new_cache 1700000000 sample_cached ∅)) = Some avg
    /\ round3 0.1 <= avg <= round3 0.767.
Proof.
  apply (health_average_range 1700000300 0.1 0.767
           (update new_cache 1700000000 sample_cached ∅)).
  - discriminate.
  - repeat constructor; unfold Qle; simpl; lia.
Defined.

(** ** Invalid sample sizes *)

Lemma spot_check_invalid_sample_size_aux (rng : nat -> nat)
    (probe : Proxy -> probe_result) (proxies : list Proxy) (N : Z) :
  proxies <> [] -> (N <= 0)%Z ->
  exists e, spot_check_proxies rng probe proxies N = Raise e.
Proof.
  intros Hne HN. destruct proxies as [ | p ps]; [congruence | ].
  unfold spot_check_proxies, random_sample.
  destruct (Z.eq_dec N 0%Z) as [-> | Hneg].
  - replace (Z.min 0 (Z.of_nat (length (p :: ps)))) with 0%Z
      by (cbn [length]; lia).
    eexists. reflexivity.
  - replace (Z.min N (Z.of_nat (length (p :: ps)))) with N by lia.
    destruct (Z.ltb_spec N 0); [ | lia]. eexists. reflexivity.
Qed.

(** X9. On a non-empty list a negative sample size makes the sample request
    fail ([ValueError]) and a sample size of zero makes the final division
    fail ([ZeroDivisionError]); no ratio is returned in either case. *)
Theorem spot_check_invalid_sample_size (rng : nat -> nat)
    (probe : Proxy -> probe_result) (proxies : list Proxy) (N : Z) :
  proxies <> [] ->
  ((N < 0)%Z -> spot_check_proxies rng probe proxies N = Raise ValueError)
  /\ (N = 0%Z ->
      spot_check_proxies rng probe proxies N = Raise ZeroDivisionError).
Proof.
  intros Hne. destruct proxies as [ | p ps]; [congruence | ].
  unfold spot_check_proxies, random_sample. split.
  - intros HN.
    replace (Z.min N (Z.of_nat (length (p :: ps)))) with N by lia.
    destruct (Z.ltb_spec N 0); [reflexivity | lia].
  - intros ->.
    replace (Z.min 0 (Z.of_nat (length (p :: ps)))) with 0%Z
      by (cbn [length]; lia).
    reflexivity.
Qed.

Lemma spot_check_invalid_sample_size_witness :
  spot_check_proxies (fun i => i) (fun _ => PTrue) [raw_a1; raw_b1] (-1)
  = Raise ValueError
  /\ spot_check_proxies (fun i => i) (fun _ => PTrue) [raw_a1; raw_b1] 0
     = Raise ZeroDivisionError.
Proof.
  split.
  - apply (spot_check_invalid_sample_size (fun i => i) (fun _ => PTrue)
             [raw_a1; raw_b1] (-1)); [discriminate | lia].
  - apply (spot_check_invalid_sample_size (fun i => i) (fun _ => PTrue)
             [raw_a1; raw_b1] 0); [discriminate | reflexivity].
Defined.

(** ** Refresh cycles *)

Lemma merge_nil_iff (all out : list Proxy) :
  _merge_and_deduplicate all = Ok out -> (out = [] <-> all = []).
Proof.
  intros Hm. split; intros ->.
  - destruct all as [ | p l]; [reflexivity | exfalso].
    apply (proj2 (merge_keys_In _ _ (endpoint_of p) Hm)). left. reflexivity.
  - destruct out as [ | r out]; [reflexivity | exfalso].
    apply (proj1 (merge_keys_In _ _ (endpoint_of r) Hm)). left. reflexivity.
Qed.

Lemma fetch_all_sources_eq (a b c : outcome) :
  fetch_all_sources a b c =
  bind (_merge_and_deduplicate (records_of a ++ records_of b ++ records_of c))
       (fun merged =>
          Ok (merged,
              <["clearproxy"%string := status_of c]>
                (<["vakhov"%string := status_of b]>
                   (<["proxifly"%string := status_of a]> ∅)))).
Proof.
  unfold fetch_all_sources, fetchers. cbn [fold_left].
  rewrite !fetch_step_eq. cbn [fst snd app]. rewrite <- app_assoc.
  reflexivity.
Qed.

(** X10. The orchestrator never fails, and it returns no record exactly
    when no adapter that succeeded reported one. *)
Theorem fetch_all_sources_empty_iff (proxifly vakhov clearproxy : outcome) :
  exists merged status,
    fetch_all_sources proxifly vakhov clearproxy = Ok (merged, status)
    /\ (merged = [] <->
        records_of proxifly = [] /\ records_of vakhov = []
        /\ records_of clearproxy = []).
Proof.
  rewrite fetch_all_sources_eq.
  destruct (merge_total
              (records_of proxifly ++ records_of vakhov ++ records_of clearproxy))
    as (merged & Hm).
  rewrite Hm. cbn [bind]. eexists. eexists. split; [reflexivity | ].
  rewrite (merge_nil_iff _ _ Hm). split.
  - intros H. apply app_eq_nil in H as [H1 H]. apply app_eq_nil in H. tauto.
  - intros (-> & -> & ->). reflexivity.
Qed.


Lemma merge_wf (all out : list Proxy) :
  _merge_and_deduplicate all = Ok out ->
  Forall (fun r => quality_score r = compute_quality_score r
                   /\ (1 <= source_count r)%Z) out.
Proof.
  intros Hm. apply List.Forall_forall. intros r Hr.
  destruct (merge_In _ _ _ Hm Hr) as (base & rest & _ & ->).
  split; [reflexivity | ]. cbn. lia.
Qed.

Lemma fetch_all_sources_inv (a b c : outcome) (merged : list Proxy)
    (st : gmap string string) :
  fetch_all_sources a b c = Ok (merged, st) ->
  _merge_and_deduplicate (records_of a ++ records_of b ++ records_of c)
  = Ok merged.
Proof.
  rewrite fetch_all_sources_eq.
  destruct (_merge_and_deduplicate _) as [m | e]; cbn [bind];
    [intros [= <- _]; reflexivity | discriminate].
Qed.

Section Cycles.
Variable SPOT_CHECK_SAMPLE_SIZE : Z.

(** What one cycle does to the record list: it is kept, or replaced by a
    merge result that is non-empty unless the cache was empty. *)
Lemma refresh_cache_proxies (w : world) (cache : ProxyCache) :
  proxies (refresh_cache SPOT_CHECK_SAMPLE_SIZE w cache) = proxies cache
  \/ exists all,
       _merge_and_deduplicate all
       = Ok (proxies (refresh_cache SPOT_CHECK_SAMPLE_SIZE w cache))
       /\ (proxies (refresh_cache SPOT_CHECK_SAMPLE_SIZE w cache) = [] ->
           proxies cache = []).
Proof.
  unfold refresh_cache.
  destruct (fetch_all_sources _ _ _) as [[merged st] | e] eqn:Ef; [ | auto].
  apply fetch_all_sources_inv in Ef.
  destruct (negb (length merged =? 0)%nat || is_empty cache) eqn:Ec; [ | auto].
  right. eexists. split.
  - destruct (spot_check_proxies _ _ _ _); exact Ef.
  - destruct (spot_check_proxies _ _ _ _); cbn; intros ->;
      cbn in Ec; unfold is_empty in Ec;
      destruct (proxies cache); [reflexivity | discriminate
                                | reflexivity | discriminate].
Qed.

(** X11. No refresh cycle, and no sequence of refresh cycles, empties a
    cache that holds records. *)
Theorem periodic_refresh_never_empties (ws : list world) (cache : ProxyCache) :
  proxies cache <> [] ->
  proxies (_periodic_refresh SPOT_CHECK_SAMPLE_SIZE ws cache) <> [].
Proof.
  revert cache. induction ws as [ | w ws IH]; intros cache Hne; [exact Hne | ].
  cbn [_periodic_refresh fold_left]. apply IH.
  destruct (refresh_cache_proxies w cache) as [-> | (all & _ & H)];
    [exact Hne | tauto].
Qed.



(** X14. With a sample size of zero or less, a cycle that yields records
    still replaces records, status map and timestamp, but the spot check
    fails and the ratio of the previous cycle is left in place. *)
Theorem refresh_invalid_sample_size (w : world) (cache : ProxyCache)
    (p : Proxy) (ps : list Proxy) (st : gmap string string) :
  fetch_all_sources (w_proxifly w) (w_vakhov w) (w_clearproxy w)
    = Ok (p :: ps, st) ->
  (SPOT_CHECK_SAMPLE_SIZE <= 0)%Z ->
  refresh_cache SPOT_CHECK_SAMPLE_SIZE w cache
  = update cache (w_now w) (p :: ps) st
  /\ spot_check_success_rate (refresh_cache SPOT_CHECK_SAMPLE_SIZE w cache)
     = spot_check_success_rate cache.
Proof.
  intros Hf HN.
  assert (E : refresh_cache SPOT_CHECK_SAMPLE_SIZE w cache
              = update cache (w_now w) (p :: ps) st).
  { assert (Hne : p :: ps <> []) by discriminate.
    destruct (spot_check_invalid_sample_size_aux (w_rng w) (w_probe w)
                (p :: ps) SPOT_CHECK_SAMPLE_SIZE Hne HN) as (e & He).
    unfold refresh_cache. rewrite Hf, He. reflexivity. }
  rewrite E. split; reflexivity.
Qed.

(** X15. On an empty cache a cycle that yields no record still writes: the
    cache stays empty but is stamped with the current time, takes the new
    status map and records a ratio of 0.0. *)
Theorem refresh_empty_on_empty (w : world) (cache : ProxyCache)
    (st : gmap string string) :
  fetch_all_sources (w_proxifly w) (w_vakhov w) (w_clearproxy w)
    = Ok ([], st) ->
  proxies cache = [] ->
  proxies (refresh_cache SPOT_CHECK_SAMPLE_SIZE w cache) = []
  /\ cached_at (refresh_cache SPOT_CHECK_SAMPLE_SIZE w cache) = w_now w
  /\ source_status (refresh_cache SPOT_CHECK_SAMPLE_SIZE w cache) = st
  /\ spot_check_success_rate (refresh_cache SPOT_CHECK_SAMPLE_SIZE w cache)
     = Some 0.0.
Proof.
  intros Hf He. unfold refresh_cache, is_empty. rewrite Hf, He.
  repeat split.
Qed.
End Cycles.

Lemma periodic_refresh_never_empties_witness :
  proxies (_periodic_refresh 5 [outage_world; busy_world; outage_world]
             filled_cache) <> [].
Proof.
  apply (periodic_refresh_never_empties 5
           [outage_world; busy_world; outage_world] filled_cache).
  discriminate.
Defined.


Lemma busy_world_fetch :
  exists p ps st,
    fetch_all_sources (w_proxifly busy_world) (w_vakhov busy_world)
      (w_clearproxy busy_world) = Ok (p :: ps, st).
Proof. eexists. eexists. eexists. reflexivity. Qed.


Lemma refresh_invalid_sample_size_witness :
  exists p ps st,
    refresh_cache 0 busy_world filled_cache
    = update filled_cache 1700001200 (p :: ps) st
    /\ spot_check_success_rate (refresh_cache 0 busy_world filled_cache)
       = Some 0.5.
Proof.
  destruct busy_world_fetch as (p & ps & st & Hf).
  exists p, ps, st.
  apply (refresh_invalid_sample_size 0 busy_world filled_cache p ps st Hf).
  lia.
Defined.

Lemma refresh_empty_on_empty_witness :
  proxies (refresh_cache 5 outage_world new_cache) = []
  /\ cached_at (refresh_cache 5 outage_world new_cache) = 1700000600
  /\ source_status (refresh_cache 5 outage_world new_cache)
     = <["clearproxy"%string := "error: HTTPStatusError"%string]>
         (<["vakhov"%string := "error: ConnectTimeout"%string]>
            (<["proxifly"%string := "ok"%string]> ∅))
  /\ spot_check_success_rate (refresh_cache 5 outage_world new_cache)
     = Some 0.0.
Proof.
  apply (refresh_empty_on_empty 5 outage_world new_cache).
  - reflexivity.
  - reflexivity.
Defined.

(** ** Counting the merged records *)

Lemma group_of_cons (k : endpoint) (p : Proxy) (l : list Proxy) :
  length (group_of k (p :: l)) =
  ((if endpoint_eqb (endpoint_of p) k then 1 else 0) + length (group_of k l))%nat.
Proof.
  unfold group_of. simpl. destruct (endpoint_eqb _ _); reflexivity.
Qed.

Lemma occurrences_NoDup (k : endpoint) (ks : list endpoint) :
  List.NoDup ks -> In k ks ->
  list_sum (map (fun k' => if endpoint_eqb k k' then 1 else 0)%nat ks) = 1%nat.
Proof.
  induction ks as [ | k0 ks IH]; simpl; [intros _ [] | ].
  intros Hnd Hin. apply List.NoDup_cons_iff in Hnd as [Hk0 Hnd].
  destruct (endpoint_eqb k k0) eqn:E.
  - apply endpoint_eqb_eq in E. subst k0. f_equal.
    clear IH Hin Hnd. induction ks as [ | k1 ks IH]; simpl; [reflexivity | ].
    destruct (endpoint_eqb k k1) eqn:E1.
    + apply endpoint_eqb_eq in E1. subst. exfalso. apply Hk0. left. reflexivity.
    + apply IH. intros H. apply Hk0. right. exact H.
  - destruct Hin as [-> | Hin];
      [rewrite endpoint_eqb_refl in E; discriminate | ].
    simpl. apply IH; assumption.
Qed.

(** The groups partition the input. *)
Lemma group_sizes_total (ks : list endpoint) (l : list Proxy) :
  List.NoDup ks -> (forall p, In p l -> In (endpoint_of p) ks) ->
  list_sum (map (fun k => length (group_of k l)) ks) = length l.
Proof.
  intros Hnd. induction l as [ | p l IH]; intros Hks.
  - induction ks as [ | k ks IHk]; simpl; [reflexivity | ].
    apply List.NoDup_cons_iff in Hnd as [_ Hnd]. apply IHk; auto.
    intros p [].
  - assert (E : list_sum (map (fun k => length (group_of k (p :: l))) ks)
                = (list_sum (map (fun k' => if endpoint_eqb (endpoint_of p) k'
                                            then 1 else 0)%nat ks)
                   + list_sum (map (fun k => length (group_of k l)) ks))%nat).
    { clear. induction ks as [ | k ks IHk]; [reflexivity | ].
      change (length (group_of k (p :: l))
              + list_sum (map (fun k => length (group_of k (p :: l))) ks)
              = (if endpoint_eqb (endpoint_of p) k then 1 else 0)
                + list_sum (map (fun k' => if endpoint_eqb (endpoint_of p) k'
                                           then 1 else 0) ks)
                + (length (group_of k l)
                   + list_sum (map (fun k => length (group_of k l)) ks)))%nat.
      rewrite IHk, group_of_cons. lia. }
    rewrite E, occurrences_NoDup, IH; simpl; auto.
    + intros q Hq. apply Hks. right. exact Hq.
    + apply Hks. left. reflexivity.
Qed.

Lemma total_sources_perm (l l' : list Proxy) :
  Permutation l l' -> total_sources l = total_sources l'.
Proof.
  unfold total_sources. induction 1; simpl; lia.
Qed.

Lemma merged_total (all : list Proxy) (ks : list endpoint) (pre : list Proxy) :
  Forall2 (merged_from all) ks pre ->
  total_sources pre
  = Z.of_nat (list_sum (map (fun k => length (group_of k all)) ks)).
Proof.
  induction 1 as [ | k r ks pre (base & rest & Hg & ->) _ IH];
    [reflexivity | ].
  unfold total_sources in *. cbn [map fold_right].
  change (list_sum (?a :: ?l)) with (a + list_sum l)%nat.
  rewrite IH, Hg. cbn [merge_with_base source_count set_quality_score]. lia.
Qed.

(** X16. Every raw record is counted once: the source counts of the merged
    output add up to the number of raw records, and the output is never
    longer than the input. *)
Theorem merge_counts_every_record (all : list Proxy) :
  exists out,
    _merge_and_deduplicate all = Ok out
    /\ total_sources out = Z.of_nat (length all)
    /\ (length out <= length all)%nat
    /\ (out = [] <-> all = []).
Proof.
  destruct (merge_char all) as (pre & Hout & Hall).
  exists (sort_reverse quality_score pre).
  split; [exact Hout | ].
  assert (Htot : total_sources (sort_reverse quality_score pre)
                 = Z.of_nat (length all)).
  { rewrite (total_sources_perm _ pre) by apply sort_reverse_perm.
    rewrite (merged_total _ _ _ Hall), group_sizes_total;
      [reflexivity | apply first_keys_NoDup | ].
    intros p Hp. apply first_keys_In, in_map, Hp. }
  split; [exact Htot | ]. split; [ | apply (merge_nil_iff _ _ Hout)].
  assert (Hpos : Forall (fun r => (1 <= source_count r)%Z)
                        (sort_reverse quality_score pre)).
  { eapply List.Forall_impl; [ | apply (merge_wf _ _ Hout)].
    intros r [_ H]. exact H. }
  assert (Hlen : forall l, Forall (fun r => (1 <= source_count r)%Z) l ->
                           (Z.of_nat (length l) <= total_sources l)%Z).
  { induction 1 as [ | r l Hr _ IH]; unfold total_sources in *;
      cbn [length map fold_right]; lia. }
  specialize (Hlen _ Hpos). lia.
Qed.

(** ** Fields and score range of merged records *)





(** ** Monotonicity of the score *)

Lemma compute_quality_score_mono_sum (p p' : Proxy) :
  score_sum p <= score_sum p' ->
  compute_quality_score p <= compute_quality_score p'.
Proof.
  intros H. rewrite !compute_quality_score_sum.
  apply round3_mono, Q.min_le_compat_r, H.
Qed.

(** X18. All else equal, a larger source count, a higher reliability and a
    lower positive latency never lower the score, and neither does a
    non-negative reliability compared with none. *)
Theorem compute_quality_score_monotone (p : Proxy) (n n' : Z) (r r' s s' : Q) :
  (n <= n')%Z -> 0 <= r <= r' -> 0 < s' <= s ->
  compute_quality_score (with_source_count p n)
    <= compute_quality_score (with_source_count p n')
  /\ compute_quality_score (with_reliability p (Some r))
     <= compute_quality_score (with_reliability p (Some r'))
  /\ compute_quality_score (with_reliability p None)
     <= compute_quality_score (with_reliability p (Some r))
  /\ compute_quality_score (with_speed_ms p (Some s))
     <= compute_quality_score (with_speed_ms p (Some s')).
Proof.
  intros Hn [Hr0 Hr] [Hs0 Hs].
  repeat split; apply compute_quality_score_mono_sum; unfold score_sum.
  - assert (corroboration_term (with_source_count p n)
            <= corroboration_term (with_source_count p n')).
    { unfold corroboration_term. cbn [source_count with_source_count].
      apply Q.min_le_compat_r.
      assert (inject_Z n <= inject_Z n') by (rewrite <- Zle_Qle; exact Hn).
      lra. }
    change (reliability_term (with_source_count p n))
      with (reliability_term (with_source_count p n')).
    change (speed_term (with_source_count p n))
      with (speed_term (with_source_count p n')).
    change (verified_term (with_source_count p n))
      with (verified_term (with_source_count p n')).
    cbn [anonymity with_source_count]. lra.
  - change (corroboration_term (with_reliability p (Some r)))
      with (corroboration_term (with_reliability p (Some r'))).
    change (speed_term (with_reliability p (Some r)))
      with (speed_term (with_reliability p (Some r'))).
    change (verified_term (with_reliability p (Some r)))
      with (verified_term (with_reliability p (Some r'))).
    unfold reliability_term. cbn [anonymity reliability with_reliability]. lra.
  - change (corroboration_term (with_reliability p None))
      with (corroboration_term (with_reliability p (Some r))).
    change (speed_term (with_reliability p None))
      with (speed_term (with_reliability p (Some r))).
    change (verified_term (with_reliability p None))
      with (verified_term (with_reliability p (Some r))).
    unfold reliability_term. cbn [anonymity reliability with_reliability]. lra.
  - change (corroboration_term (with_speed_ms p (Some s)))
      with (corroboration_term (with_speed_ms p (Some s'))).
    change (reliability_term (with_speed_ms p (Some s)))
      with (reliability_term (with_speed_ms p (Some s'))).
    change (verified_term (with_speed_ms p (Some s)))
      with (verified_term (with_speed_ms p (Some s'))).
    assert (speed_term (with_speed_ms p (Some s))
            <= speed_term (with_speed_ms p (Some s'))).
    { unfold speed_term. cbn [speed_ms with_speed_ms].
      assert (E : Qltb 0 s = true) by (apply Qltb_lt; lra).
      assert (E' : Qltb 0 s' = true) by (apply Qltb_lt; lra).
      rewrite E, E'. apply Q.max_le_compat_l.
      assert (s' / 25000 <= s / 25000).
      { apply Qle_shift_div_l; [lra | ].
        unfold Qdiv. rewrite <- Qmult_assoc, (Qmult_comm (/ 25000)),
          Qmult_inv_r, Qmult_1_r by discriminate. exact Hs. }
      lra. }
    cbn [anonymity with_speed_ms]. lra.
Qed.

Lemma compute_quality_score_monotone_witness :
  compute_quality_score (with_source_count sample_proxy 1)
    <= compute_quality_score (with_source_count sample_proxy 3)
  /\ compute_quality_score (with_reliability sample_proxy (Some 0.7))
     <= compute_quality_score (with_reliability sample_proxy (Some 0.95))
  /\ compute_quality_score (with_reliability sample_proxy None)
     <= compute_quality_score (with_reliability sample_proxy (Some 0.7))
  /\ compute_quality_score (with_speed_ms sample_proxy (Some 900))
     <= compute_quality_score (with_speed_ms sample_proxy (Some 40)).
Proof.
  apply (compute_quality_score_monotone sample_proxy 1 3 0.7 0.95 900 40).
  - lia.
  - split; unfold Qle; simpl; lia.
  - split; [reflexivity | unfold Qle; simpl; lia].
Defined.

(** ** The ClearProxy adapter and the normalisation tables *)

(** X19. The ClearProxy adapter never fails: it returns the records of the
    variants that could be fetched, in the order http, socks4, socks5, so
    the orchestrator always reports this source as "ok", even when every
    variant failed. *)
Theorem fetch_clearproxy_never_fails (single : string -> string -> outcome)
    (proxifly vakhov : outcome) :
  _fetch_clearproxy single
  = Ok (records_of (single CLEARPROXY_HTTP_URL "http"%string)
        ++ records_of (single CLEARPROXY_SOCKS4_URL "socks4"%string)
        ++ records_of (single CLEARPROXY_SOCKS5_URL "socks5"%string))
  /\ exists merged st,
       fetch_all_sources proxifly vakhov (_fetch_clearproxy single)
       = Ok (merged, st)
       /\ st !! "clearproxy"%string = Some "ok"%string.
Proof.
  assert (E : _fetch_clearproxy single
              = Ok (records_of (single CLEARPROXY_HTTP_URL "http"%string)
                    ++ records_of (single CLEARPROXY_SOCKS4_URL "socks4"%string)
                    ++ records_of (single CLEARPROXY_SOCKS5_URL "socks5"%string))).
  { unfold _fetch_clearproxy. cbn [fold_left clearproxy_step].
    destruct (single CLEARPROXY_HTTP_URL "http"%string),
      (single CLEARPROXY_SOCKS4_URL "socks4"%string),
      (single CLEARPROXY_SOCKS5_URL "socks5"%string);
      cbn [records_of app]; rewrite ?app_nil_r, <- ?app_assoc; reflexivity. }
  split; [exact E | ].
  rewrite E, fetch_all_sources_eq.
  destruct (merge_total
              (records_of proxifly ++ records_of vakhov
               ++ records_of (Ok (records_of (single CLEARPROXY_HTTP_URL "http"%string)
                    ++ records_of (single CLEARPROXY_SOCKS4_URL "socks4"%string)
                    ++ records_of (single CLEARPROXY_SOCKS5_URL "socks5"%string)))))
    as (merged & Hm).
  rewrite Hm. cbn [bind]. eexists. eexists. split; [reflexivity | ].
  apply lookup_insert_eq.
Qed.

Lemma ANONYMITY_MAP_values (k v : string) :
  ANONYMITY_MAP !! k = Some v ->
  v = "transparent"%string \/ v = "anonymous"%string \/ v = "elite"%string.
Proof.
  unfold ANONYMITY_MAP.
  repeat (rewrite lookup_insert; case_decide;
          [intros [= <-]; auto | ]).
  rewrite lookup_empty. discriminate.
Qed.

Lemma VAKHOV_ANON_MAP_values (k : Z) (v : string) :
  VAKHOV_ANON_MAP !! k = Some v ->
  v = "transparent"%string \/ v = "anonymous"%string \/ v = "elite"%string.
Proof.
  unfold VAKHOV_ANON_MAP.
  repeat (rewrite lookup_insert; case_decide;
          [intros [= <-]; auto | ]).
  rewrite lookup_empty. discriminate.
Qed.

(** X20. Whatever a feed sends and however [lower] and [strip] act on it,
    anonymity normalisation yields one of the three canonical tags or
    nothing, for the string table and for the integer table alike. *)
Theorem normalized_anonymity_canonical (str_lower str_strip : string -> string)
    (raw : option string) (level : Z) :
  valid_tag (_normalize_anonymity str_lower str_strip raw)
  /\ valid_tag (VAKHOV_ANON_MAP !! level).
Proof.
  unfold valid_tag, _normalize_anonymity. split.
  - destruct raw as [s | ]; [ | auto].
    destruct (ANONYMITY_MAP !! str_strip (str_lower s)) as [v | ] eqn:E; [ | auto].
    apply ANONYMITY_MAP_values in E as [-> | [-> | ->]]; auto.
  - destruct (VAKHOV_ANON_MAP !! level) as [v | ] eqn:E; [ | auto].
    apply VAKHOV_ANON_MAP_values in E as [-> | [-> | ->]]; auto.
Qed.

(** X21. The status map returned by the orchestrator has exactly the three
    source names as keys. *)
Theorem fetch_all_sources_status_keys (proxifly vakhov clearproxy : outcome) :
  exists merged st,
    fetch_all_sources proxifly vakhov clearproxy = Ok (merged, st)
    /\ forall name,
         is_Some (st !! name) <->
         name = "proxifly"%string \/ name = "vakhov"%string
         \/ name = "clearproxy"%string.
Proof.
  rewrite fetch_all_sources_eq.
  destruct (merge_total
              (records_of proxifly ++ records_of vakhov ++ records_of clearproxy))
    as (merged & Hm).
  rewrite Hm. cbn [bind]. eexists. eexists. split; [reflexivity | ].
  intros name. rewrite !lookup_insert_is_Some, lookup_empty, is_Some_alt.
  intuition congruence.
Qed.

(** ** Full samples and uniform probe outcomes *)

Lemma filter_length_perm {A : Type} (f : A -> bool) (l l' : list A) :
  Permutation l l' ->
  length (List.filter f l) = length (List.filter f l').
Proof.
  induction 1 as [ | x l l' _ IH | x y l | l l' l'' _ IH1 _ IH2]; simpl.
  - reflexivity.
  - destruct (f x); simpl; congruence.
  - destruct (f x), (f y); reflexivity.
  - congruence.
Qed.

(** X22. When the sample size is at least the number of records, every
    record is probed exactly once and the ratio is the share of records
    whose probe succeeds, whatever the random generator does. *)
Theorem spot_check_full_sample (rng : nat -> nat)
    (probe : Proxy -> probe_result) (proxies : list Proxy) (N : Z) :
  proxies <> [] -> (Z.of_nat (length proxies) <= N)%Z ->
  exists sample,
    random_sample rng proxies (Z.min N (Z.of_nat (length proxies)))
      = Ok sample
    /\ Permutation sample proxies
    /\ spot_check_proxies rng probe proxies N =
       Ok (inject_Z (Z.of_nat (length (List.filter is_True (map probe proxies))))
           / inject_Z (Z.of_nat (length proxies))).
Proof.
  intros Hne HN.
  assert (H1 : (1 <= N)%Z).
  { destruct proxies; [congruence | cbn [length] in HN; lia]. }
  destruct (spot_check_defined rng probe proxies N Hne H1)
    as (sample & rest & Hs & Hlen & _ & Hperm & Hres).
  replace (Z.min N (Z.of_nat (length proxies)))
    with (Z.of_nat (length proxies)) in * by lia.
  assert (rest = []).
  { apply Permutation_length in Hperm. rewrite length_app in Hperm.
    destruct rest; [reflexivity | simpl in Hperm; lia]. }
  subst rest. rewrite app_nil_r in Hperm.
  exists sample. split; [exact Hs | ]. split; [exact Hperm | ].
  rewrite Hres.
  rewrite (filter_length_perm is_True (map probe sample) (map probe proxies))
    by (apply Permutation_map, Hperm).
  reflexivity.
Qed.

Lemma spot_check_full_sample_witness :
  exists sample,
    random_sample (fun i => i * 7)%nat [raw_a1; raw_b1; raw_c1]
      (Z.min 5 (Z.of_nat (length [raw_a1; raw_b1; raw_c1]))) = Ok sample
    /\ Permutation sample [raw_a1; raw_b1; raw_c1]
    /\ spot_check_proxies (fun i => i * 7)%nat
         (fun p => if (port p =? 80)%Z then PTrue else PFalse)
         [raw_a1; raw_b1; raw_c1] 5 =
       Ok (inject_Z (Z.of_nat (length (List.filter is_True
             (map (fun p => if (port p =? 80)%Z then PTrue else PFalse)
                  [raw_a1; raw_b1; raw_c1]))))
           / inject_Z (Z.of_nat (length [raw_a1; raw_b1; raw_c1]))).
Proof.
  apply (spot_check_full_sample (fun i => i * 7)%nat
           (fun p => if (port p =? 80)%Z then PTrue else PFalse)
           [raw_a1; raw_b1; raw_c1] 5).
  - discriminate.
  - simpl. lia.
Defined.

(** X23. With a sample size of at least one, the ratio is 1 when the probe
    succeeds on every record and 0 when it succeeds on none (a probe that
    returns False or ends in an exception counts as a failure). *)
Theorem spot_check_uniform (rng : nat -> nat) (probe : Proxy -> probe_result)
    (proxies : list Proxy) (N : Z) :
  proxies <> [] -> (1 <= N)%Z ->
  exists rate,
    spot_check_proxies rng probe proxies N = Ok rate
    /\ ((forall p, In p proxies -> probe p = PTrue) -> rate == 1)
    /\ ((forall p, In p proxies -> probe p <> PTrue) -> rate == 0).
Proof.
  intros Hne HN.
  destruct (spot_check_defined rng probe proxies N Hne HN)
    as (sample & rest & _ & Hlen & Hn & Hperm & Hres).
  eexists. split; [exact Hres | ].
  assert (Hin : forall p, In p sample -> In p proxies).
  { intros p Hp. eapply Permutation_in; [exact Hperm | ].
    apply in_app_iff. left. exact Hp. }
  assert (Hpos : ~ inject_Z (Z.min N (Z.of_nat (length proxies))) == 0).
  { intros H. change 0 with (inject_Z 0) in H.
    rewrite inject_Z_injective in H. lia. }
  split; intros Hall.
  - assert (E : List.filter is_True (map probe sample) = map probe sample).
    { clear - Hall Hin. induction sample as [ | p l IH]; [reflexivity | ].
      simpl. rewrite (Hall p) by (apply Hin; left; reflexivity). simpl.
      f_equal. apply IH. intros q Hq. apply Hin. right. exact Hq. }
    rewrite E, length_map, Hlen. field. exact Hpos.
  - assert (E : List.filter is_True (map probe sample) = []).
    { clear - Hall Hin. induction sample as [ | p l IH]; [reflexivity | ].
      simpl. specialize (Hall p (Hin p (or_introl eq_refl))).
      destruct (probe p); [congruence | | ]; simpl;
        apply IH; intros q Hq; apply Hin; right; exact Hq. }
    rewrite E. cbn [length Z.of_nat]. change (inject_Z 0) with 0.
    field. exact Hpos.
Qed.

Lemma spot_check_uniform_witness :
  exists rate,
    spot_check_proxies (fun i => i) (fun _ => PException (OtherError "CancelledError"))
      [raw_a1; raw_b1; raw_c1] 2 = Ok rate
    /\ ((forall p, In p [raw_a1; raw_b1; raw_c1] ->
           PException (OtherError "CancelledError") = PTrue) -> rate == 1)
    /\ ((forall p, In p [raw_a1; raw_b1; raw_c1] ->
           PException (OtherError "CancelledError") <> PTrue) -> rate == 0).
Proof.
  apply (spot_check_uniform (fun i => i)
           (fun _ => PException (OtherError "CancelledError"))
           [raw_a1; raw_b1; raw_c1] 2).
  - discriminate.
  - lia.
Defined.

(** ** Tag preference and anonymity bonus *)

(** X24. The merge engine and the scorer rank anonymity tags alike: one tag
    outranks another in [_anon_rank] exactly when it earns the larger
    anonymity bonus, so the tag kept by the merge is the best-scoring one. *)
Theorem anon_rank_agrees_with_bonus (a b : option string) :
  (_anon_rank a <= _anon_rank b)%Z
  <-> anon_scores_get (or_empty a) 0 <= anon_scores_get (or_empty b) 0.
Proof.
  unfold _anon_rank, anon_scores_get.
  destruct (String.eqb (or_empty a) "elite"),
    (String.eqb (or_empty a) "anonymous"),
    (String.eqb (or_empty a) "transparent"),
    (String.eqb (or_empty b) "elite"),
    (String.eqb (or_empty b) "anonymous"),
    (String.eqb (or_empty b) "transparent");
    unfold Qle; simpl; lia.
Qed.

(** ** The status map after a cycle *)

(** X2. Every refresh cycle leaves the status map of that cycle's fetch in
    the cache, whether it replaces the records, keeps stale ones, or loses
    the spot check to an exception. *)
Theorem refresh_always_updates_status (sample_size : Z) (w : world)
    (cache : ProxyCache) :
  exists merged st,
    fetch_all_sources (w_proxifly w) (w_vakhov w) (w_clearproxy w)
      = Ok (merged, st)
    /\ source_status (refresh_cache sample_size w cache) = st
    /\ st !! "proxifly"%string = Some (status_of (w_proxifly w))
    /\ st !! "vakhov"%string = Some (status_of (w_vakhov w))
    /\ st !! "clearproxy"%string = Some (status_of (w_clearproxy w)).
Proof.
  unfold refresh_cache. rewrite fetch_all_sources_eq.
  destruct (merge_total
              (records_of (w_proxifly w) ++ records_of (w_vakhov w)
               ++ records_of (w_clearproxy w))) as (merged & Hm).
  rewrite Hm. cbn [bind]. eexists. eexists. split; [reflexivity | ].
  split.
  - destruct (negb (length merged =? 0)%nat || is_empty cache);
      [destruct (spot_check_proxies _ _ _ _) | ]; reflexivity.
  - split; [ | split].
    + rewrite !lookup_insert_ne by discriminate. apply lookup_insert_eq.
    + rewrite lookup_insert_ne by discriminate. apply lookup_insert_eq.
    + apply lookup_insert_eq.
Qed.
